(** * Miiu-Design portfolio page: the project-modal controller of script.js

    A shallow embedding of the second DOMContentLoaded handler of
    [src/script.js] (lines 268-470): the tool-badge renderer, the modal
    open/close operations, the deep-link reader and the popstate handler,
    together with the small part of the browser they talk to (the query
    string of the current URL and the session history).

    Conventions.
    - A JavaScript string is a [string]; every [ascii] is read as one code
      unit in the range U+0000..U+00FF, which is the range the embedding
      covers for [toLowerCase], [trim] and [encodeURIComponent].
    - [null] and [undefined] results of DOM reads are [None].
    - The handler closes over [modal], [titleEl], [imgEl], [modalFlags] and
      [frame]; the state record [World] holds what they point to.  The
      handler returns at once when [#project-modal] is absent, so a [World]
      always has the overlay element. *)

From Stdlib Require Import String Ascii List Bool NArith Arith Lia Permutation.
Import ListNotations.
Local Open Scope string_scope.
Local Open Scope list_scope.

(** ** JavaScript string primitives *)

Module Js.

(** Truthiness of a string value: only the empty string is falsy. *)
Definition truthy (s : string) : bool := negb (s =? "").

(** [a || d] where [a] is [null], [undefined] or a string. *)
Definition or_else (a : option string) (d : string) : string :=
  match a with
  | Some s => if truthy s then s else d
  | None => d
  end.

Definition code (c : ascii) : N := N_of_ascii c.

(** White space and line terminators of ECMAScript below U+0100:
    TAB, LF, VT, FF, CR, SP and NBSP. *)
Definition is_space (c : ascii) : bool :=
  let n := code c in
  ((9 <=? n) && (n <=? 13) || (n =? 32) || (n =? 160))%N.

(** Simple lower-case mapping below U+0100: A-Z and the Latin-1 capitals
    U+00C0..U+00DE except the multiplication sign U+00D7. *)
Definition lower_char (c : ascii) : ascii :=
  let n := code c in
  if ((65 <=? n) && (n <=? 90)
      || (192 <=? n) && (n <=? 222) && negb (n =? 215))%N
  then ascii_of_N (n + 32) else c.

Fixpoint toLowerCase (s : string) : string :=
  match s with
  | EmptyString => EmptyString
  | String c r => String (lower_char c) (toLowerCase r)
  end.

Fixpoint trimStart (s : string) : string :=
  match s with
  | EmptyString => EmptyString
  | String c r => if is_space c then trimStart r else s
  end.

Fixpoint trimEnd (s : string) : string :=
  match s with
  | EmptyString => EmptyString
  | String c r =>
      match trimEnd r with
      | EmptyString => if is_space c then EmptyString else String c EmptyString
      | r' => String c r'
      end
  end.

Definition trim (s : string) : string := trimEnd (trimStart s).

(** [s.split(',')]: the pieces between commas; the empty string gives one
    empty piece. *)
Fixpoint split_comma (s : string) : list string :=
  match s with
  | EmptyString => [EmptyString]
  | String c r =>
      if (c =? ",")%char then EmptyString :: split_comma r
      else match split_comma r with
           | [] => [String c EmptyString]
           | h :: t => String c h :: t
           end
  end.

(** [encodeURIComponent]: the unreserved set is kept, every other code
    unit is written as the percent-escaped bytes of its UTF-8 form. *)
Definition unreserved (c : ascii) : bool :=
  let n := code c in
  ((65 <=? n) && (n <=? 90) || (97 <=? n) && (n <=? 122)
   || (48 <=? n) && (n <=? 57)
   || (n =? 45) || (n =? 95) || (n =? 46) || (n =? 33) || (n =? 126)
   || (n =? 42) || (n =? 39) || (n =? 40) || (n =? 41))%N.

Definition hex_digit (n : N) : ascii :=
  if (n <? 10)%N then ascii_of_N (48 + n) else ascii_of_N (55 + n).

Definition pct (b : N) : string :=
  String "%" (String (hex_digit (b / 16)) (String (hex_digit (b mod 16)) EmptyString)).

Definition encode_char (c : ascii) : string :=
  let n := code c in
  if unreserved c then String c EmptyString
  else if (n <? 128)%N then pct n
  else pct (192 + n / 64) ++ pct (128 + n mod 64).

Fixpoint encodeURIComponent (s : string) : string :=
  match s with
  | EmptyString => EmptyString
  | String c r => encode_char c ++ encodeURIComponent r
  end.

End Js.

(** ** The tool table (script.js 280-311) *)

(** A descriptor of [toolConfig]: the fields [class], [ariaLabel], [label]
    and [isImage]. *)
Record ToolDescriptor := mkTool {
  t_class : string;
  t_ariaLabel : string;
  t_label : string;
  t_isImage : bool
}.

(** The own properties of the object literal, in source order. *)
Definition toolConfig : list (string * ToolDescriptor) :=
  [ ("ps",      mkTool "bubble-PS" "Photoshop" "PS" false);
    ("ai",      mkTool "bubble-AI" "Illustrator" "AI" false);
    ("blender", mkTool "bubble-blender" "Blender" "" true);
    ("figma",   mkTool "bubble-figma" "Figma" "" true);
    ("pr",      mkTool "bubble-PR" "Premiere Pro" "PR" false) ].

(** [toolConfig] is written as an object literal, so a property read that
    finds no own property goes on to [Object.prototype].  These are the
    names every ECMAScript realm defines there. *)
Definition object_prototype_names : list string :=
  [ "constructor"; "__proto__"; "hasOwnProperty"; "isPrototypeOf";
    "propertyIsEnumerable"; "toLocaleString"; "toString"; "valueOf";
    "__defineGetter__"; "__defineSetter__"; "__lookupGetter__";
    "__lookupSetter__" ].

(** What [toolConfig[k]] evaluates to. *)
Inductive Lookup :=
| Own (d : ToolDescriptor)   (* a descriptor of the table *)
| Inherited                  (* a member of Object.prototype: truthy, and
                                none of the four fields is defined on it *)
| Undefined.

Fixpoint own_property (k : string) (t : list (string * ToolDescriptor))
  : option ToolDescriptor :=
  match t with
  | [] => None
  | (k', d) :: r => if k' =? k then Some d else own_property k r
  end.

Definition mem_string (k : string) (l : list string) : bool :=
  existsb (fun x => x =? k) l.

Definition toolConfig_get (k : string) : Lookup :=
  match own_property k toolConfig with
  | Some d => Own d
  | None => if mem_string k object_prototype_names then Inherited else Undefined
  end.

(** ** Badges (script.js 317-352) *)

(** The inner [span.bubble-text]: text content, or [role=img] with an
    accessible label. *)
Inductive BubbleLabel :=
| TextLabel (text : string)
| ImageLabel (ariaLabel : string).

(** One rendered [div] of the badge container. *)
Record Bubble := mkBubble {
  b_class : string;
  b_ariaLabel : string;
  b_inner : BubbleLabel
}.

Definition normalizedKey (toolKey : string) : string :=
  Js.trim (Js.toLowerCase toolKey).

(** The body of the [forEach] callback: the badge appended for one key, if
    any.  On an inherited member the reads [config.class],
    [config.ariaLabel], [config.isImage] and [config.label] all give
    [undefined]: the two string slots receive the text "undefined", the
    falsy [isImage] takes the text branch, and [textContent = undefined]
    leaves the span empty. *)
Definition bubble_for (toolKey : string) : option Bubble :=
  match toolConfig_get (normalizedKey toolKey) with
  | Undefined => None
  | Own d =>
      Some (mkBubble (t_class d) (t_ariaLabel d)
              (if t_isImage d then ImageLabel (t_ariaLabel d)
               else TextLabel (t_label d)))
  | Inherited => Some (mkBubble "undefined" "undefined" (TextLabel ""))
  end.

Definition appendChild (container : list Bubble) (b : option Bubble) : list Bubble :=
  match b with
  | Some x => container ++ [x]
  | None => container
  end.

(** [renderBubbles(tools)] on the badge container [modalFlags]
    ([None] when [.modal-flags] is missing): clear, then append in order. *)
Definition renderBubbles (tools : list string) (modalFlags : option (list Bubble))
  : option (list Bubble) :=
  match modalFlags with
  | None => None
  | Some _ =>
      let cleared := [] in
      Some (fold_left (fun acc toolKey => appendChild acc (bubble_for toolKey))
                      tools cleared)
  end.

(** [toolsAttr.split(',').map(t => t.trim()).filter(t => t)] *)
Definition parse_tools (toolsAttr : string) : list string :=
  filter Js.truthy (map Js.trim (Js.split_comma toolsAttr)).

(** ** The browser: query strings and the session history *)

Module Url.

(** A parsed URL: everything before the query, the query as the ordered
    list of decoded name-value pairs that [URLSearchParams] exposes, and
    the fragment. *)
Record t := mk {
  base : string;
  query : list (string * string);
  fragment : string
}.

Definition named (name : string) (p : string * string) : bool :=
  fst p =? name.

(** [URLSearchParams.get]: the value of the first pair with that name. *)
Definition sp_get (name : string) (q : list (string * string)) : option string :=
  option_map snd (find (named name) q).

(** [URLSearchParams.has] *)
Definition sp_has (name : string) (q : list (string * string)) : bool :=
  existsb (named name) q.

(** [URLSearchParams.delete]: removes every pair with that name. *)
Definition sp_delete (name : string) (q : list (string * string))
  : list (string * string) :=
  filter (fun p => negb (named name p)) q.

(** [URLSearchParams.set]: the first pair with that name takes the value
    and the later ones are removed; with no such pair one is appended. *)
Fixpoint sp_set (name value : string) (q : list (string * string))
  : list (string * string) :=
  match q with
  | [] => [(name, value)]
  | p :: r =>
      if named name p then (name, value) :: sp_delete name r
      else p :: sp_set name value r
  end.

Definition get (name : string) (u : t) : option string := sp_get name (query u).
Definition has (name : string) (u : t) : bool := sp_has name (query u).
Definition set (name value : string) (u : t) : t :=
  mk (base u) (sp_set name value (query u)) (fragment u).
Definition delete (name : string) (u : t) : t :=
  mk (base u) (sp_delete name (query u)) (fragment u).

End Url.

Module History.

(** The state object handed to [pushState]: [null] on an entry the page
    did not push, [{}] or [{ project: id }] otherwise. *)
Inductive Payload :=
| StNull
| StEmpty
| StProject (id : string).

Record Entry := mkEntry {
  e_state : Payload;
  e_url : Url.t
}.

(** The joint session history around the current entry: the entries
    behind it (nearest first), the entry itself, the entries ahead of it
    (nearest first). *)
Record t := mk {
  past : list Entry;
  current : Entry;
  future : list Entry
}.

Definition location (h : t) : Url.t := e_url (current h).

(** [history.pushState(state, '', url)]: a new entry after the current
    one; the entries ahead are dropped. *)
Definition pushState (st : Payload) (u : Url.t) (h : t) : t :=
  mk (current h :: past h) (mkEntry st u) [].

(** [history.replaceState]: never called by the controller; here so that
    statements can tell a push from a replacement. *)
Definition replaceState (st : Payload) (u : Url.t) (h : t) : t :=
  mk (past h) (mkEntry st u) (future h).

(** The traversal the browser performs for the back and forward buttons,
    before it fires [popstate]. *)
Definition back (h : t) : option t :=
  match past h with
  | [] => None
  | e :: p => Some (mk p e (current h :: future h))
  end.

Definition forward (h : t) : option t :=
  match future h with
  | [] => None
  | e :: f => Some (mk (current h :: past h) e f)
  end.

(** All entries, oldest first. *)
Definition entries (h : t) : list Entry :=
  rev (past h) ++ current h :: future h.

End History.

(** ** The page *)

(** A [.card] element: the four data attributes the controller reads and
    the [src] property of the first nested [img] ([None]: no such
    attribute, no such element). *)
Record Card := mkCard {
  data_id : option string;
  data_title : option string;
  data_img : option string;
  img_src : option string;
  data_tools : option string
}.

(** The [.project-image] element. *)
Record ImgEl := mkImg {
  src : string;
  alt : string
}.

(** What the handler's closures reach.  The optional elements are [None]
    when the overlay has no such descendant. *)
Record World := mkWorld {
  cards : list Card;                    (* the .card elements, document order *)
  aria_hidden : option string;          (* modal.getAttribute('aria-hidden') *)
  body_overflow : string;               (* document.body.style.overflow *)
  titleEl : option string;              (* textContent of .modal-title *)
  imgEl : option ImgEl;
  modalFlags : option (list Bubble);    (* children of .modal-flags *)
  frame_focus : option bool;            (* .modal-frame, and whether it has focus *)
  history : History.t
}.

Definition location (w : World) : Url.t := History.location (history w).

(** The test the source uses for "open":
    [modal.getAttribute('aria-hidden') === 'false']. *)
Definition is_open (w : World) : bool :=
  match aria_hidden w with
  | Some v => v =? "false"
  | None => false
  end.

(** The overlay is marked hidden. *)
Definition marked_hidden (w : World) : Prop := aria_hidden w = Some "true".

Definition has_project (w : World) : bool := Url.has "project" (location w).

(** ** The controller (script.js 355-452) *)

Definition card_id (card : Card) : string := Js.or_else (data_id card) "".
Definition card_title (card : Card) : string := Js.or_else (data_title card) "Project".
Definition card_img (card : Card) : string :=
  Js.or_else (data_img card) (Js.or_else (img_src card) "").
Definition card_tools (card : Card) : list string :=
  parse_tools (Js.or_else (data_tools card) "").

Definition placeholder (id : string) : string :=
  "https://picsum.photos/seed/"
  ++ Js.encodeURIComponent (if Js.truthy id then id else "long")
  ++ "/900/3000".

(** The value assigned to [imgEl.src]. *)
Definition displayed_image (card : Card) : string :=
  let img := card_img card in
  if Js.truthy img then img else placeholder (card_id card).

Definition project_param (id : string) : string :=
  if Js.truthy id then id else "p".

Definition openFromCard (card : Card) (pushHistory : bool) (w : World) : World :=
  let id := card_id card in
  let title := card_title card in
  {| cards := cards w;
     titleEl := option_map (fun _ => title) (titleEl w);
     imgEl := option_map (fun _ => mkImg (displayed_image card) title) (imgEl w);
     modalFlags := renderBubbles (card_tools card) (modalFlags w);
     aria_hidden := Some "false";
     body_overflow := "hidden";
     frame_focus := option_map (fun _ => true) (frame_focus w);
     history :=
       if pushHistory then
         let url := Url.set "project" (project_param id) (location w) in
         History.pushState (History.StProject id) url (history w)
       else history w |}.

Definition closeModal (fromHistory : bool) (w : World) : World :=
  {| cards := cards w;
     titleEl := titleEl w;
     imgEl := imgEl w;
     modalFlags := modalFlags w;
     aria_hidden := Some "true";
     body_overflow := "";
     frame_focus := frame_focus w;
     history :=
       if negb fromHistory then
         let url := Url.delete "project" (location w) in
         History.pushState History.StEmpty url (history w)
       else history w |}.

(** The string holds the code unit U+0000. *)
Fixpoint has_nul (s : string) : bool :=
  match s with
  | EmptyString => false
  | String c r => (Js.code c =? 0)%N || has_nul r
  end.

(** The attribute selector [[data-id="${CSS.escape(id)}"]] on one card.
    [CSS.escape] writes every character so that the quoted string reads
    back as that character, except U+0000, for which it writes U+FFFD.  The
    selector then asks for a [data-id] equal to the id with U+FFFD in place
    of each U+0000; U+FFFD is outside the range of this embedding, so an id
    that holds U+0000 matches no card, and any other id matches the cards
    whose [data-id] is that very string. *)
Definition has_data_id (id : string) (card : Card) : bool :=
  match data_id card with
  | Some v => negb (has_nul id) && (v =? id)
  | None => false
  end.

(** [document.querySelector] with that selector: the first matching card
    in document order. *)

Definition query_card (id : string) (w : World) : option Card :=
  find (has_data_id id) (cards w).

(** [openFromUrl(push)]: the returned boolean and the page afterwards. *)
Definition openFromUrl (push : bool) (w : World) : bool * World :=
  match Url.get "project" (location w) with
  | None => (false, w)
  | Some id =>
      if negb (Js.truthy id) then (false, w)
      else match query_card id w with
           | Some card => (true, openFromCard card push w)
           | None => (false, w)
           end
  end.

(** The statement [openFromUrl(false);] that ends the set-up. *)
Definition on_load (w : World) : World := snd (openFromUrl false w).

(** The [popstate] listener; the browser has already moved [location]. *)
Definition popstate (w : World) : World :=
  let has := Url.has "project" (location w) in
  if negb has then
    if is_open w then closeModal true w else w
  else snd (openFromUrl false w).

(** ** Inputs *)

Definition with_history (h : History.t) (w : World) : World :=
  {| cards := cards w; titleEl := titleEl w; imgEl := imgEl w;
     modalFlags := modalFlags w; aria_hidden := aria_hidden w;
     body_overflow := body_overflow w; frame_focus := frame_focus w;
     history := h |}.

(** What reaches the controller, one listener run at a time: the card
    listener (a click or Enter/Space on a card), a close listener (the one
    on the backdrop, the one on the close button, or the margin listener on
    [.modal-content]), the Escape listener, and the popstate listener after
    a back or a forward step of the browser.  The three close listeners are
    registered independently and the margin listener excludes only the
    figure and the contact block, so one click can run more than one of
    them: it is then as many [CloseControl] inputs in a row, see
    [close_click]. *)
Inductive Event :=
| OpenCard (card : Card)
| CloseControl
| Escape
| Back
| Forward.

Definition traverse (move : History.t -> option History.t) (w : World) : World :=
  match move (history w) with
  | Some h => popstate (with_history h w)
  | None => w
  end.

Definition handle (w : World) (e : Event) : World :=
  match e with
  | OpenCard card => openFromCard card true w
  | CloseControl => closeModal false w
  | Escape => if is_open w then closeModal false w else w
  | Back => traverse History.back w
  | Forward => traverse History.forward w
  end.

Definition run (es : list Event) (w : World) : World := fold_left handle es w.

(** A click inside the overlay, by the close listeners it reaches: the
    target is inside the backdrop, inside the close button, inside
    [.modal-content] but outside [.project-figure] and
    [.modal-contact-inner]. *)
Record CloseClick := mkClick {
  in_backdrop : bool;
  in_close_button : bool;
  in_margin : bool
}.

Definition listeners_reached (c : CloseClick) : nat :=
  (if in_backdrop c then 1 else 0) + (if in_close_button c then 1 else 0)
  + (if in_margin c then 1 else 0).

(** The inputs of one such click: every listener it reaches runs
    [closeModal()]. *)
Definition close_click (c : CloseClick) : list Event :=
  repeat CloseControl (listeners_reached c).

(** Successive direct calls of [openFromCard]. *)
Definition open_each (calls : list (Card * bool)) (w : World) : World :=
  fold_left (fun acc call => openFromCard (fst call) (snd call) acc) calls w.


(** ** Vocabulary of the statements *)

(** The [forEach] loop appends, to whatever the container holds, the badges
    of the keys in order. *)
Definition bubbles_of (tools : list string) : list Bubble :=
  flat_map (fun k => match bubble_for k with Some b => [b] | None => [] end) tools.

(** A key of the table, after normalisation. *)
Definition recognized (toolKey : string) : bool :=
  match own_property (normalizedKey toolKey) toolConfig with
  | Some _ => true
  | None => false
  end.

(** The key reaches a member of [Object.prototype] instead. *)
Definition reaches_prototype (toolKey : string) : bool :=
  negb (recognized toolKey)
  && mem_string (normalizedKey toolKey) object_prototype_names.

(** The badge of a recognized key, as the table describes it. *)
Definition badge_of_descriptor (d : ToolDescriptor) : Bubble :=
  mkBubble (t_class d) (t_ariaLabel d)
    (if t_isImage d then ImageLabel (t_ariaLabel d) else TextLabel (t_label d)).

Definition descriptor_badges (tools : list string) : list Bubble :=
  flat_map (fun k => match own_property (normalizedKey k) toolConfig with
                     | Some d => [badge_of_descriptor d]
                     | None => []
                     end) tools.

(** No code unit of the string is one of A-Z. *)
Definition is_upper (c : ascii) : bool :=
  ((65 <=? Js.code c) && (Js.code c <=? 90))%N.

Fixpoint no_upper (s : string) : bool :=
  match s with
  | EmptyString => true
  | String c r => negb (is_upper c) && no_upper r
  end.

(** The overlay is shown exactly when the current URL carries a [project]
    parameter. *)
Definition consistent (w : World) : Prop :=
  is_open w = true <-> has_project w = true.

(** The image priority read by presence of the attribute and of the nested
    element alone, as a reader of the card markup would state it; compared
    with [displayed_image] below. *)
Definition image_by_presence (card : Card) : string :=
  match data_img card with
  | Some s => s
  | None =>
      match img_src card with
      | Some s => s
      | None => placeholder (card_id card)
      end
  end.

(** A string attribute that is there and not empty. *)
Definition filled (a : option string) : option string :=
  match a with
  | Some s => if Js.truthy s then Some s else None
  | None => None
  end.

(** Everything of the page that [closeModal] leaves alone. *)
Definition same_content (w w' : World) : Prop :=
  cards w' = cards w /\ titleEl w' = titleEl w /\ imgEl w' = imgEl w
  /\ modalFlags w' = modalFlags w /\ frame_focus w' = frame_focus w.

(** ** Sample pages *)

Module Sample.

Definition alpha : Card :=
  mkCard (Some "alpha") (Some "Alpha") (Some "img/alpha.jpg") None (Some "PS, AI").

Definition beta : Card :=
  mkCard (Some "beta") None None (Some "img/beta-thumb.png")
         (Some "Figma,sketch, Blender ").

(** A card whose [data-id] is the empty string and that has no picture. *)
Definition anon : Card :=
  mkCard (Some "") (Some "Untitled") None None None.

(** [data-img] present but empty, with a nested thumbnail. *)
Definition blank_img : Card :=
  mkCard (Some "gamma") (Some "Gamma") (Some "") (Some "img/gamma-thumb.png") None.

(** A card that lists a tool the table does not have. *)
Definition odd_tool : Card :=
  mkCard (Some "delta") (Some "Delta") None None (Some "constructor").

Definition home : Url.t := Url.mk "https://example.org/index.html" [] "".

Definition page (cs : list Card) (q : list (string * string)) : World :=
  {| cards := cs;
     aria_hidden := Some "true";
     body_overflow := "";
     titleEl := Some "";
     imgEl := Some (mkImg "" "");
     modalFlags := Some [];
     frame_focus := Some false;
     history := History.mk [] (History.mkEntry History.StNull
                                 (Url.mk (Url.base home) q "")) [] |}.

Definition portfolio : list Card := [alpha; beta; anon].

(** The page as first loaded, without a query string. *)
Definition fresh : World := page portfolio [].

(** Loaded from a link to a project that has no card. *)
Definition stale_link : World := page portfolio [("project", "omega")].

(** Loaded from a link to the card [beta]. *)
Definition beta_link : World := page portfolio [("project", "beta")].

(** Loaded from a link whose [project] value is empty. *)
Definition empty_link : World := page portfolio [("project", "")].

End Sample.

(** ** Vocabulary of the further properties of the controller *)

(** A URL on which the popstate handler and the deep-link reader end with
    the overlay in step with it: no [project] parameter, or one that is the
    [data-id] of a card of the page, not empty and without U+0000. *)
Definition resolvable (cs : list Card) (u : Url.t) : Prop :=
  Url.has "project" u = false
  \/ exists id c,
       Url.get "project" u = Some id /\ id <> "" /\ has_nul id = false
       /\ In c cs /\ data_id c = Some id.

(** Every entry of the session history has such a URL. *)
Definition well_linked (w : World) : Prop :=
  Forall (fun e => resolvable (cards w) (History.e_url e))
         (History.entries (history w)).

(** The cards a click can open are cards of the page, here with an id
    that is not empty and holds no U+0000. *)
Definition opens_listed_card (cs : list Card) (e : Event) : Prop :=
  match e with
  | OpenCard c => In c cs /\ card_id c <> "" /\ has_nul (card_id c) = false
  | _ => True
  end.

Definition present {A : Type} (o : option A) : bool :=
  match o with
  | Some _ => true
  | None => false
  end.

(** Two pages with the same cards and the same optional elements of the
    overlay, whatever these elements hold. *)
Definition same_elements (w w' : World) : Prop :=
  cards w' = cards w
  /\ present (titleEl w') = present (titleEl w)
  /\ present (imgEl w') = present (imgEl w)
  /\ present (modalFlags w') = present (modalFlags w)
  /\ present (frame_focus w') = present (frame_focus w).

(** The string is made of white space and commas only. *)
Fixpoint blank_list (s : string) : bool :=
  match s with
  | EmptyString => true
  | String c r => (Js.is_space c || (c =? ",")%char) && blank_list r
  end.

Fixpoint count_commas (s : string) : nat :=
  match s with
  | EmptyString => 0
  | String c r => (if (c =? ",")%char then 1 else 0) + count_commas r
  end.

Fixpoint all_space (s : string) : bool :=
  match s with
  | EmptyString => true
  | String c r => Js.is_space c && all_space r
  end.

(** A character that [encodeURIComponent] can put out: an unreserved one
    or the percent sign of an escape. *)
Definition url_safe (c : ascii) : bool := Js.unreserved c || (c =? "%")%char.

Fixpoint all_url_safe (s : string) : bool :=
  match s with
  | EmptyString => true
  | String c r => url_safe c && all_url_safe r
  end.

(** ** The rest of the page script (script.js 22-266) *)

(** *** More string primitives *)

Module Text.

(** [s.includes(sub)]: [sub] occurs in [s] as a substring. *)
Fixpoint includes (s sub : string) : bool :=
  if String.prefix sub s then true
  else match s with
       | EmptyString => false
       | String _ r => includes r sub
       end.

(** The argument of [includes] after [ToString]: [null] reads "null". *)
Definition search_string (a : option string) : string :=
  match a with
  | Some s => s
  | None => "null"
  end.

(** ASCII white space, the separator of class tokens: TAB, LF, FF, CR, SP. *)
Definition is_ascii_space (c : ascii) : bool :=
  let n := Js.code c in
  ((n =? 9) || (n =? 10) || (n =? 12) || (n =? 13) || (n =? 32))%N.

(** The pieces of [s] between separators, empty ones included. *)
Fixpoint split_on (sep : ascii -> bool) (s : string) : list string :=
  match s with
  | EmptyString => [EmptyString]
  | String c r =>
      if sep c then EmptyString :: split_on sep r
      else match split_on sep r with
           | [] => [String c EmptyString]
           | h :: t => String c h :: t
           end
  end.

Definition mem (t : string) (l : list string) : bool :=
  existsb (fun x => x =? t) l.

(** An ordered set: later repetitions are dropped. *)
Fixpoint ordered_set (seen l : list string) : list string :=
  match l with
  | [] => []
  | t :: r => if mem t seen then ordered_set seen r
              else t :: ordered_set (seen ++ [t]) r
  end.

(** The token set of a [class] attribute value. *)
Definition tokens (s : string) : list string :=
  ordered_set [] (filter Js.truthy (split_on is_ascii_space s)).

(** The serialisation the DOM writes back: tokens joined by one space. *)
Definition serialize (l : list string) : string := String.concat " " l.

Definition attr_tokens (a : option string) : list string :=
  match a with
  | Some s => tokens s
  | None => []
  end.

(** [el.classList.add(t)] on the [class] attribute. *)
Definition classList_add (t : string) (a : option string) : option string :=
  let set := attr_tokens a in
  Some (serialize (if mem t set then set else set ++ [t])).

(** [el.classList.remove(t)]: an absent attribute stays absent when the
    set is empty; otherwise the attribute is rewritten. *)
Definition classList_remove (t : string) (a : option string) : option string :=
  let set := filter (fun x => negb (x =? t)) (attr_tokens a) in
  match a, set with
  | None, [] => None
  | _, _ => Some (serialize set)
  end.

(** [el.classList.contains(t)] *)
Definition has_token (t : string) (a : option string) : bool :=
  mem t (attr_tokens a).

End Text.

(** *** Navigation tabs (script.js 25-72, 169-181) *)

Module Nav.

(** A [.nav-btn]: its [data-active], [aria-current] and [data-nav]. *)
Record Btn := mkBtn {
  data_active : option string;
  aria_current : option string;
  data_nav : option string
}.

(** What the page says about the contact section and about motion. *)
Record Env := mkEnv {
  contact_section : bool;         (* document.getElementById('contact') *)
  prefers_reduced_motion : bool
}.

Inductive Effect :=
| ScrollToTop                       (* window.scrollTo({top: 0, behavior: 'smooth'}) *)
| ConsoleLog (msg : string)
| ScrollIntoView (behavior block : string).

Definition scrollToContact (env : Env) : list Effect :=
  if contact_section env then
    [ScrollIntoView (if prefers_reduced_motion env then "auto" else "smooth")
                    "start"]
  else [].

Definition deactivate (b : Btn) : Btn := mkBtn (Some "false") None (data_nav b).
Definition activate (b : Btn) : Btn := mkBtn (Some "true") (Some "page") (data_nav b).

(** A change to the element at one position of a node list. *)
Fixpoint update {A : Type} (i : nat) (f : A -> A) (l : list A) : list A :=
  match l, i with
  | [], _ => []
  | x :: r, 0 => f x :: r
  | x :: r, S j => x :: update j f r
  end.

(** [handleNavClick(clickedBtn, allBtns)].  Both call sites pass a button
    of [allBtns]; it is named by its position in the list. *)
Definition handleNavClick (env : Env) (clickedBtn : nat) (allBtns : list Btn)
  : list Btn * list Effect :=
  let btns := update clickedBtn activate (map deactivate allBtns) in
  let navType :=
    match nth_error allBtns clickedBtn with
    | Some b => data_nav b
    | None => None
    end in
  (btns,
   match navType with
   | Some t =>
       if t =? "home" then [ScrollToTop]
       else if t =? "about" then [ConsoleLog "Navigate to About Us"]
       else if t =? "contact" then scrollToContact env
       else []
   | None => []
   end).

Definition is_active (b : Btn) : bool :=
  match data_active b with
  | Some v => v =? "true"
  | None => false
  end.

(** A series of clicks on one navigation bar. *)
Definition clicks (env : Env) (cs : list nat) (btns : list Btn) : list Btn :=
  fold_left (fun acc c => fst (handleNavClick env c acc)) cs btns.

End Nav.

(** *** The card grid (script.js 77-164, 234-266) *)

Module Grid.

(** A descendant of a card that may be a flag: its [class], [aria-hidden]
    and [tabindex] attributes. *)
Record El := mkEl {
  class_attr : option string;
  el_aria_hidden : option string;
  tabindex : option string
}.

(** The callbacks a card can have waiting: the animation frame of
    [showCard] and the 200 ms timer of [hideCard]. *)
Inductive Callback :=
| ShowFrame
| HideTimeout.

(** A [.card] as the grid code sees it: [data-cats], whether its class
    list has [hidden], three inline style properties, the callbacks
    scheduled for it and not yet run (oldest first), and its descendants in
    document order. *)
Record CardView := mkView {
  data_cats : option string;
  class_hidden : bool;
  display : string;
  opacity : string;
  transform : string;
  pending : list Callback;
  inner : list El
}.

Definition showCard (card : CardView) : CardView :=
  {| data_cats := data_cats card;
     class_hidden := false;
     display := "";
     opacity := opacity card;
     transform := transform card;
     pending := pending card ++ [ShowFrame];
     inner := inner card |}.

Definition hideCard (card : CardView) : CardView :=
  {| data_cats := data_cats card;
     class_hidden := class_hidden card;
     display := display card;
     opacity := "0";
     transform := "scale(0.95)";
     pending := pending card ++ [HideTimeout];
     inner := inner card |}.

(** The body of a callback, run on its card. *)
Definition run_callback (card : CardView) (cb : Callback) : CardView :=
  match cb with
  | ShowFrame =>
      {| data_cats := data_cats card; class_hidden := class_hidden card;
         display := display card;
         opacity := "1"; transform := "scale(1)";
         pending := pending card; inner := inner card |}
  | HideTimeout =>
      {| data_cats := data_cats card; class_hidden := true;
         display := "none";
         opacity := opacity card; transform := transform card;
         pending := pending card; inner := inner card |}
  end.

(** The waiting callbacks run in the order [order], and none is left. *)
Definition fire_all (order : list Callback) (card : CardView) : CardView :=
  let card := fold_left run_callback order card in
  {| data_cats := data_cats card; class_hidden := class_hidden card;
     display := display card; opacity := opacity card;
     transform := transform card; pending := []; inner := inner card |}.

(** The test of [filterCards] for one card. *)
Definition selected (category : option string) (card : CardView) : bool :=
  if match category with Some c => c =? "all" | None => false end then true
  else match data_cats card with
       | Some cats =>
           Js.truthy cats && Text.includes cats (Text.search_string category)
       | None => false
       end.

(** The selector [[class^="flag-"], [class*=" flag-"]]. *)
Definition is_flag (e : El) : bool :=
  match class_attr e with
  | Some s => String.prefix "flag-" s || Text.includes s " flag-"
  | None => false
  end.

Definition show_flag (e : El) : El :=
  {| class_attr := Text.classList_remove "flag-hidden" (class_attr e);
     el_aria_hidden := None;
     tabindex := Some "0" |}.

Definition hide_flag (e : El) : El :=
  {| class_attr := Text.classList_add "flag-hidden" (class_attr e);
     el_aria_hidden := Some "true";
     tabindex := Some "-1" |}.

(** The [forEach] over the flags of one card: among the descendants that
    match the selector, the one of index 0 is shown and the later ones are
    hidden; the others are not visited.  [later] tells that index 0 has
    been passed. *)
Fixpoint mark_flags (later : bool) (els : list El) : list El :=
  match els with
  | [] => []
  | e :: r =>
      if is_flag e then
        (if later then hide_flag e else show_flag e) :: mark_flags true r
      else e :: mark_flags later r
  end.

Definition applyFirstFlagOnly_card (card : CardView) : CardView :=
  {| data_cats := data_cats card; class_hidden := class_hidden card;
     display := display card; opacity := opacity card;
     transform := transform card; pending := pending card;
     inner := mark_flags false (inner card) |}.

(** [applyFirstFlagOnly()]: the rule on every [.card] of the document. *)
Definition applyFirstFlagOnly (cards : list CardView) : list CardView :=
  map applyFirstFlagOnly_card cards.

(** [filterCards(cards, category)]: each card is shown or hidden, then the
    first-flag rule is applied again.  [cards] is the node list taken at
    set-up, which holds every [.card] of the document. *)
Definition filterCards (cards : list CardView) (category : option string)
  : list CardView :=
  applyFirstFlagOnly
    (map (fun card => if selected category card then showCard card
                      else hideCard card) cards).

(** A [.chip]: whether its class list has [active], its [aria-pressed]
    and [data-cat]. *)
Record Chip := mkChip {
  chip_active : bool;
  aria_pressed : option string;
  data_cat : option string
}.

Definition release (c : Chip) : Chip := mkChip false (Some "false") (data_cat c).
Definition press (c : Chip) : Chip := mkChip true (Some "true") (data_cat c).

(** [handleCategoryFilter(clickedChip, allChips, allCards)], the chip named
    by its position in [allChips]. *)
Definition handleCategoryFilter (clickedChip : nat) (allChips : list Chip)
           (allCards : list CardView) : list Chip * list CardView :=
  let chips := Nav.update clickedChip press (map release allChips) in
  let selectedCategory :=
    match nth_error allChips clickedChip with
    | Some c => data_cat c
    | None => None
    end in
  (chips, filterCards allCards selectedCategory).

(** No callback is waiting on the card. *)
Definition settled (card : CardView) : Prop := pending card = [].

(** The flags of a card that are not marked hidden. *)
Definition visible_flags (card : CardView) : list El :=
  filter (fun e => is_flag e && negb (Text.has_token "flag-hidden" (class_attr e)))
         (inner card).

End Grid.

(** *** Vocabulary of the class-token properties *)

Fixpoint no_space (s : string) : bool :=
  match s with
  | EmptyString => true
  | String c r => negb (Text.is_ascii_space c) && no_space r
  end.

(** A well-formed token: not empty and free of white space. *)
Definition token (t : string) : Prop := t <> "" /\ no_space t = true.

(** A token set: well-formed tokens without repetition. *)
Definition token_set (l : list string) : Prop := Forall token l /\ NoDup l.

(** The class attribute has a token that starts with [flag-] and is not
    [flag-hidden] itself. *)
Definition has_own_flag_class (e : Grid.El) : bool :=
  existsb (fun t => String.prefix "flag-" t && negb (t =? "flag-hidden"))
          (Text.attr_tokens (Grid.class_attr e)).

(** The first flag of the card, if it has one, has such a token. *)
Definition first_flag_named (card : Grid.CardView) : Prop :=
  match find Grid.is_flag (Grid.inner card) with
  | Some e => has_own_flag_class e = true
  | None => True
  end.
(** * Properties *)

(** ** Query strings *)

Section QueryStrings.

Variable name : string.

Lemma sp_has_delete (q : list (string * string)) :
  Url.sp_has name (Url.sp_delete name q) = false.
Proof.
  unfold Url.sp_has, Url.sp_delete.
  induction q as [|p r IH]; simpl; [reflexivity|].
  destruct (Url.named name p) eqn:E; simpl; [exact IH|].
  rewrite E. exact IH.
Qed.

Lemma sp_get_set (v : string) (q : list (string * string)) :
  Url.sp_get name (Url.sp_set name v q) = Some v.
Proof.
  unfold Url.sp_get.
  induction q as [|p r IH]; simpl.
  - unfold Url.named; simpl. now rewrite String.eqb_refl.
  - destruct (Url.named name p) eqn:E; simpl.
    + unfold Url.named; simpl. now rewrite String.eqb_refl.
    + rewrite E. exact IH.
Qed.

Lemma sp_has_get (q : list (string * string)) :
  Url.sp_has name q = true <-> exists v, Url.sp_get name q = Some v.
Proof.
  unfold Url.sp_has, Url.sp_get.
  induction q as [|p r IH]; simpl.
  - split; [discriminate | intros [v H]; discriminate].
  - destruct (Url.named name p); simpl.
    + split; [intros _; now exists (snd p) | reflexivity].
    + exact IH.
Qed.

Lemma sp_has_set (v : string) (q : list (string * string)) :
  Url.sp_has name (Url.sp_set name v q) = true.
Proof.
  apply sp_has_get. exists v. apply sp_get_set.
Qed.

Lemma sp_get_none_has (q : list (string * string)) :
  Url.sp_get name q = None -> Url.sp_has name q = false.
Proof.
  intros H. destruct (Url.sp_has name q) eqn:E; [|reflexivity].
  apply sp_has_get in E. destruct E as [v E]. congruence.
Qed.

End QueryStrings.

(** ** Rendering *)


Lemma forEach_append (tools : list string) (container : list Bubble) :
  fold_left (fun acc toolKey => appendChild acc (bubble_for toolKey)) tools container
  = container ++ bubbles_of tools.
Proof.
  revert container.
  induction tools as [|k r IH]; intros container; simpl.
  - now rewrite app_nil_r.
  - rewrite IH. destruct (bubble_for k); simpl.
    + now rewrite <- app_assoc.
    + reflexivity.
Qed.

Lemma renderBubbles_spec (tools : list string) (mf : option (list Bubble)) :
  renderBubbles tools mf = option_map (fun _ => bubbles_of tools) mf.
Proof.
  destruct mf; simpl; [|reflexivity].
  now rewrite forEach_append.
Qed.


Lemma length_descriptor_badges (tools : list string) :
  List.length (descriptor_badges tools) = List.length (filter recognized tools).
Proof.
  unfold descriptor_badges.
  induction tools as [|k r IH]; [reflexivity|].
  cbn [flat_map filter]. rewrite length_app, IH.
  unfold recognized at 2.
  destruct (own_property (normalizedKey k) toolConfig); reflexivity.
Qed.

(** As long as no key of the list reaches the prototype, the container
    holds one badge per recognized key, in input order. *)
Lemma bubbles_of_own_keys (tools : list string) :
  forallb (fun k => negb (reaches_prototype k)) tools = true ->
  bubbles_of tools = descriptor_badges tools.
Proof.
  unfold bubbles_of, descriptor_badges.
  induction tools as [|k r IH]; [reflexivity|].
  cbn [flat_map forallb].
  intros H. apply andb_true_iff in H. destruct H as [Hk Hr].
  rewrite (IH Hr). f_equal.
  unfold reaches_prototype, recognized in Hk.
  unfold bubble_for, toolConfig_get.
  destruct (own_property (normalizedKey k) toolConfig); [reflexivity|].
  cbn [negb andb] in Hk. apply negb_true_iff in Hk. now rewrite Hk.
Qed.

(** ** The operations, field by field *)

Lemma has_project_after_open (card : Card) (w : World) :
  has_project (openFromCard card true w) = true.
Proof.
  unfold has_project, location, openFromCard, History.location, Url.has.
  cbn [history History.pushState History.current History.e_url Url.set Url.query].
  apply sp_has_set.
Qed.

Lemma project_after_open (card : Card) (w : World) :
  Url.get "project" (location (openFromCard card true w))
  = Some (project_param (card_id card)).
Proof.
  unfold location, openFromCard, History.location, Url.get.
  cbn [history History.pushState History.current History.e_url Url.set Url.query].
  apply sp_get_set.
Qed.

Lemma has_project_after_close (w : World) :
  has_project (closeModal false w) = false.
Proof.
  unfold has_project, location, closeModal, History.location, Url.has.
  cbn [negb history History.pushState History.current History.e_url
       Url.delete Url.query].
  apply sp_has_delete.
Qed.

Lemma is_open_after_open (card : Card) (push : bool) (w : World) :
  is_open (openFromCard card push w) = true.
Proof. reflexivity. Qed.

Lemma is_open_after_close (fromHistory : bool) (w : World) :
  is_open (closeModal fromHistory w) = false.
Proof. reflexivity. Qed.

Lemma history_open_nopush (card : Card) (w : World) :
  history (openFromCard card false w) = history w.
Proof. reflexivity. Qed.

Lemma cards_open (card : Card) (push : bool) (w : World) :
  cards (openFromCard card push w) = cards w.
Proof. reflexivity. Qed.

(** ** Looking a card up by its id *)

Lemma has_data_id_true (id : string) (card : Card) :
  has_data_id id card = true <-> has_nul id = false /\ data_id card = Some id.
Proof.
  unfold has_data_id. destruct (data_id card) as [v|].
  - rewrite andb_true_iff, negb_true_iff, String.eqb_eq.
    split; [intros [H ->]; now split | intros [H E]; now injection E as ->].
  - split; [discriminate | intros [_ H]; discriminate].
Qed.

Lemma query_card_sound (id : string) (w : World) (card : Card) :
  query_card id w = Some card -> In card (cards w) /\ data_id card = Some id.
Proof.
  unfold query_card. intros H. apply find_some in H. destruct H as [Hin Hid].
  split; [exact Hin|]. now apply has_data_id_true in Hid.
Qed.

Lemma query_card_no_nul (id : string) (w : World) (card : Card) :
  query_card id w = Some card -> has_nul id = false.
Proof.
  unfold query_card. intros H. apply find_some in H. destruct H as [_ Hid].
  now apply has_data_id_true in Hid.
Qed.

(** An id that holds U+0000 finds no card. *)
Lemma query_card_nul (id : string) (w : World) :
  has_nul id = true -> query_card id w = None.
Proof.
  intros Hn. destruct (query_card id w) as [card|] eqn:E; [|reflexivity].
  apply query_card_no_nul in E. congruence.
Qed.

Lemma query_card_complete (id : string) (w : World) :
  has_nul id = false ->
  (exists c, In c (cards w) /\ data_id c = Some id) ->
  exists card, query_card id w = Some card.
Proof.
  intros Hn [c [Hin Hid]]. unfold query_card.
  destruct (find (has_data_id id) (cards w)) as [card|] eqn:E.
  - now exists card.
  - exfalso. pose proof (find_none _ _ E c Hin) as Hf.
    assert (Ht : has_data_id id c = true) by (apply has_data_id_true; now split).
    congruence.
Qed.

Lemma query_card_none (id : string) (w : World) :
  (forall c, In c (cards w) -> data_id c <> Some id) -> query_card id w = None.
Proof.
  intros H. destruct (query_card id w) as [card|] eqn:E; [|reflexivity].
  apply query_card_sound in E. destruct E as [Hin Hid].
  exfalso. exact (H card Hin Hid).
Qed.

Lemma truthy_iff (s : string) : Js.truthy s = true <-> s <> "".
Proof.
  unfold Js.truthy. rewrite negb_true_iff. split.
  - intros H E. subst. discriminate.
  - intros H. apply String.eqb_neq. exact H.
Qed.

Lemma openFromUrl_found (push : bool) (w : World) (id : string) (card : Card) :
  Url.get "project" (location w) = Some id -> id <> "" ->
  query_card id w = Some card ->
  openFromUrl push w = (true, openFromCard card push w).
Proof.
  intros Hget Hne Hq. unfold openFromUrl. rewrite Hget.
  apply truthy_iff in Hne. rewrite Hne. cbn [negb]. now rewrite Hq.
Qed.

(** [openFromUrl(false)] never touches the session history. *)
Lemma openFromUrl_false_history (w : World) :
  history (snd (openFromUrl false w)) = history w.
Proof.
  unfold openFromUrl.
  destruct (Url.get "project" (location w)) as [id|]; [|reflexivity].
  destruct (negb (Js.truthy id)); [reflexivity|].
  destruct (query_card id w); reflexivity.
Qed.

Lemma popstate_history (w : World) : history (popstate w) = history w.
Proof.
  unfold popstate.
  destruct (negb (Url.has "project" (location w))).
  - destruct (is_open w); reflexivity.
  - apply openFromUrl_false_history.
Qed.

(** ** Which keys reach [Object.prototype] *)

Lemma lower_char_not_upper (c : ascii) : is_upper (Js.lower_char c) = false.
Proof.
  destruct c as [b0 b1 b2 b3 b4 b5 b6 b7].
  destruct b0, b1, b2, b3, b4, b5, b6, b7; vm_compute; reflexivity.
Qed.

Lemma no_upper_toLowerCase (s : string) : no_upper (Js.toLowerCase s) = true.
Proof.
  induction s as [|c r IH]; [reflexivity|].
  cbn [Js.toLowerCase no_upper]. now rewrite lower_char_not_upper, IH.
Qed.

Lemma no_upper_trimStart (s : string) :
  no_upper s = true -> no_upper (Js.trimStart s) = true.
Proof.
  induction s as [|c r IH]; [trivial|].
  cbn [Js.trimStart]. intros H.
  destruct (Js.is_space c); [|exact H].
  apply IH. cbn [no_upper] in H. apply andb_true_iff in H. tauto.
Qed.

Lemma no_upper_trimEnd (s : string) :
  no_upper s = true -> no_upper (Js.trimEnd s) = true.
Proof.
  induction s as [|c r IH]; [trivial|].
  cbn [Js.trimEnd no_upper]. intros H.
  apply andb_true_iff in H. destruct H as [Hc Hr].
  specialize (IH Hr).
  destruct (Js.trimEnd r) as [|c' r'].
  - destruct (Js.is_space c); [reflexivity|].
    cbn [no_upper]. now rewrite Hc.
  - cbn [no_upper] in *. now rewrite Hc, IH.
Qed.

Lemma no_upper_normalizedKey (k : string) : no_upper (normalizedKey k) = true.
Proof.
  unfold normalizedKey, Js.trim.
  apply no_upper_trimEnd, no_upper_trimStart, no_upper_toLowerCase.
Qed.

(** Of the members of [Object.prototype], only the two whose names have no
    capital letter can be reached by a normalised key. *)
Lemma reaches_prototype_iff (k : string) :
  reaches_prototype k = true
  <-> normalizedKey k = "constructor" \/ normalizedKey k = "__proto__".
Proof.
  unfold reaches_prototype, recognized.
  pose proof (no_upper_normalizedKey k) as Hn.
  split.
  - intros H. apply andb_true_iff in H. destruct H as [_ H].
    unfold mem_string, object_prototype_names in H.
    cbn [existsb] in H.
    repeat (apply orb_true_iff in H; destruct H as [H|H]);
      try discriminate H;
      apply String.eqb_eq in H;
      try (left; symmetry; exact H); try (right; symmetry; exact H);
      rewrite <- H in Hn; discriminate Hn.
  - intros [H|H]; rewrite H; reflexivity.
Qed.

(** ** C1: overlay and URL after a controller-initiated transition *)

Lemma consistent_after_open (card : Card) (w : World) :
  consistent (openFromCard card true w).
Proof.
  split; intros _; [apply has_project_after_open | apply is_open_after_open].
Qed.

Lemma consistent_after_close (w : World) : consistent (closeModal false w).
Proof.
  unfold consistent.
  rewrite has_project_after_close, is_open_after_close. tauto.
Qed.

Lemma on_load_without_parameter (w : World) :
  has_project w = false -> on_load w = w.
Proof.
  intros Hh. unfold on_load, openFromUrl.
  destruct (Url.get "project" (location w)) as [id|] eqn:E; [|reflexivity].
  assert (Ht : has_project w = true) by (apply sp_has_get; now exists id).
  congruence.
Qed.

Lemma on_load_matching (w : World) (id : string) :
  Url.get "project" (location w) = Some id -> id <> "" -> has_nul id = false ->
  (exists c, In c (cards w) /\ data_id c = Some id) ->
  exists card, query_card id w = Some card
               /\ on_load w = openFromCard card false w.
Proof.
  intros Hget Hne Hnul Hex.
  destruct (query_card_complete id w Hnul Hex) as [card Hq].
  exists card. split; [exact Hq|].
  unfold on_load. now rewrite (openFromUrl_found false w id card Hget Hne Hq).
Qed.

(** C1, as the code has it.  After [openFromCard] with [pushHistory] and
    after [closeModal] not triggered by history, the overlay is marked
    visible if and only if the current URL has a [project] parameter.  For
    [openFromUrl] at load this holds when the URL has no [project]
    parameter and the markup leaves the overlay hidden, and when the
    parameter is non-empty, holds no U+0000 and equals the [data-id] of
    some card. *)
Theorem C1_transitions_consistent :
  (forall card w, consistent (openFromCard card true w))
  /\ (forall w, consistent (closeModal false w))
  /\ (forall w, has_project w = false -> is_open w = false ->
                consistent (on_load w))
  /\ (forall w id,
        Url.get "project" (location w) = Some id -> id <> "" ->
        has_nul id = false ->
        (exists c, In c (cards w) /\ data_id c = Some id) ->
        consistent (on_load w)).
Proof.
  split; [exact consistent_after_open|].
  split; [exact consistent_after_close|].
  split.
  - intros w Hh Ho. rewrite (on_load_without_parameter w Hh).
    unfold consistent. rewrite Hh, Ho. tauto.
  - intros w id Hget Hne Hnul Hex.
    destruct (on_load_matching w id Hget Hne Hnul Hex) as [card [_ Hl]].
    rewrite Hl. unfold consistent. rewrite is_open_after_open.
    unfold has_project. change (location (openFromCard card false w)) with (location w).
    split; intros _; [|reflexivity].
    apply sp_has_get. now exists id.
Qed.

(** C1 at two loads: the plain page, and a link to the card [beta]. *)
Lemma C1_transitions_consistent_witness :
  consistent (on_load Sample.fresh) /\ consistent (on_load Sample.beta_link).
Proof.
  split.
  - apply (proj1 (proj2 (proj2 C1_transitions_consistent)) Sample.fresh);
      reflexivity.
  - apply (proj2 (proj2 (proj2 C1_transitions_consistent))
             Sample.beta_link "beta").
    + reflexivity.
    + discriminate.
    + reflexivity.
    + exists Sample.beta. split; [simpl; tauto | reflexivity].
Defined.

(** C1 as stated fails for [openFromUrl] at load: a link to a project that
    has no card leaves the overlay hidden while the URL keeps its
    [project] parameter. *)
Lemma C1_stale_link_inconsistent :
  has_project (on_load Sample.stale_link) = true
  /\ is_open (on_load Sample.stale_link) = false
  /\ ~ consistent (on_load Sample.stale_link).
Proof.
  split; [reflexivity|]. split; [reflexivity|].
  intros [_ H]. specialize (H eq_refl). discriminate H.
Qed.

(** ** C2: the popstate handler *)

(** Going back from an entry that was pushed lands on the entry that was
    current before the push, whatever the page looks like by then. *)
Lemma back_after_push (st : History.Payload) (u : Url.t) (h : History.t) :
  History.back (History.pushState st u h)
  = Some (History.mk (History.past h) (History.current h) [History.mkEntry st u]).
Proof. reflexivity. Qed.

Lemma entries_back (h h' : History.t) :
  History.back h = Some h' -> History.entries h' = History.entries h.
Proof.
  unfold History.back, History.entries.
  destruct h as [p c f]; cbn [History.past History.current History.future].
  destruct p as [|e p]; [discriminate|].
  intros H. injection H as <-.
  cbn [History.past History.current History.future rev].
  now rewrite <- app_assoc.
Qed.

Lemma entries_traverse_back (w : World) :
  History.entries (history (traverse History.back w))
  = History.entries (history w).
Proof.
  unfold traverse.
  destruct (History.back (history w)) as [h|] eqn:E; [|reflexivity].
  rewrite popstate_history. cbn [with_history history].
  now apply entries_back.
Qed.

(** Open [a], close, open [b], then the back button: the handler sees the
    URL that the close pushed and closes the overlay from history. *)
Lemma back_after_open_close_open (a b : Card) (w : World) :
  handle (run [OpenCard a; CloseControl; OpenCard b] w) Back
  = closeModal true
      (with_history
         (History.mk
            (History.past (history (run [OpenCard a; CloseControl] w)))
            (History.current (history (run [OpenCard a; CloseControl] w)))
            [History.current
               (history (run [OpenCard a; CloseControl; OpenCard b] w))])
         (run [OpenCard a; CloseControl; OpenCard b] w)).
Proof.
  set (w2 := run [OpenCard a; CloseControl] w).
  set (w3 := run [OpenCard a; CloseControl; OpenCard b] w).
  assert (Hb : History.back (history w3)
               = Some (History.mk (History.past (history w2))
                                  (History.current (history w2))
                                  [History.current (history w3)]))
    by reflexivity.
  cbn [handle]. unfold traverse. rewrite Hb.
  set (h := History.mk _ _ _).
  unfold popstate.
  assert (Hl : location (with_history h w3) = location w2) by reflexivity.
  rewrite Hl.
  change (Url.has "project" (location w2))
    with (has_project (closeModal false (openFromCard a true w))).
  rewrite has_project_after_close. reflexivity.
Qed.

(** On a URL whose [project] parameter is the non-empty id of [a], and
    with [a] the first card of that id, the handler shows [a] again. *)
Lemma popstate_reopens (a : Card) (w : World) :
  Url.get "project" (location w) = Some (card_id a) -> card_id a <> "" ->
  query_card (card_id a) w = Some a ->
  popstate w = openFromCard a false w.
Proof.
  intros Hget Hne Hq. unfold popstate.
  assert (Hh : Url.has "project" (location w) = true)
    by (apply sp_has_get; now exists (card_id a)).
  rewrite Hh. cbn [negb].
  now rewrite (openFromUrl_found false w (card_id a) a Hget Hne Hq).
Qed.

Lemma option_map_const {A B C : Type} (x : B) (y : C) (o : option A) :
  option_map (fun _ => x) (option_map (fun _ => y) o) = option_map (fun _ => x) o.
Proof. now destruct o. Qed.

Lemma renderBubbles_twice (t1 t2 : list string) (mf : option (list Bubble)) :
  renderBubbles t1 (renderBubbles t2 mf) = renderBubbles t1 mf.
Proof. rewrite !renderBubbles_spec. apply option_map_const. Qed.

(** C2, as the code has it.  The popstate handler closes the overlay from
    history when the URL has no [project] parameter and the overlay is
    open, and re-runs [openFromUrl(false)] when the URL has one; in no case
    does it change the session history.  After open A, close, open B, the
    back button lands on the entry that the close pushed and closes the
    overlay: overlay and URL are as they were before B was opened, with the
    same history entries, and no project is shown.  Only one more step back
    shows A again, provided A's id is not empty and the lookup by that id
    finds A (A is the first card that carries it and the id holds no
    U+0000). *)
Theorem C2_popstate_replays_history :
  (forall w, has_project w = false -> is_open w = true ->
             popstate w = closeModal true w)
  /\ (forall w, has_project w = true ->
                popstate w = snd (openFromUrl false w))
  /\ (forall w, history (popstate w) = history w)
  /\ (forall a b w,
        let w2 := run [OpenCard a; CloseControl] w in
        let w3 := run [OpenCard a; CloseControl; OpenCard b] w in
        let w4 := handle w3 Back in
        History.entries (history w4) = History.entries (history w3)
        /\ History.past (history w4) = History.past (history w2)
        /\ History.current (history w4) = History.current (history w2)
        /\ aria_hidden w4 = aria_hidden w2
        /\ body_overflow w4 = body_overflow w2
        /\ is_open w4 = false
        /\ has_project w4 = false)
  /\ (forall a b w,
        card_id a <> "" -> query_card (card_id a) w = Some a ->
        let w1 := run [OpenCard a] w in
        let w3 := run [OpenCard a; CloseControl; OpenCard b] w in
        let w5 := run [Back; Back] w3 in
        History.entries (history w5) = History.entries (history w3)
        /\ History.past (history w5) = History.past (history w1)
        /\ History.current (history w5) = History.current (history w1)
        /\ is_open w5 = true
        /\ Url.get "project" (location w5) = Some (card_id a)
        /\ titleEl w5 = titleEl w1
        /\ imgEl w5 = imgEl w1
        /\ modalFlags w5 = modalFlags w1).
Proof.
  split; [|split; [|split; [exact popstate_history|split]]].
  - intros w Hh Ho. unfold popstate. fold (has_project w).
    now rewrite Hh, Ho.
  - intros w Hh. unfold popstate. fold (has_project w). now rewrite Hh.
  - intros a b w w2 w3 w4.
    split; [apply entries_traverse_back|].
    subst w2 w3 w4. rewrite (back_after_open_close_open a b w).
    repeat split.
    apply (has_project_after_close (openFromCard a true w)).
  - intros a b w Hid Hq w1 w3 w5.
    subst w5. change (run [Back; Back] w3) with (handle (handle w3 Back) Back).
    split.
    { change (handle (handle w3 Back) Back)
        with (traverse History.back (traverse History.back w3)).
      now rewrite !entries_traverse_back. }
    subst w1 w3. rewrite (back_after_open_close_open a b w).
    set (w3 := run [OpenCard a; CloseControl; OpenCard b] w).
    set (w2 := run [OpenCard a; CloseControl] w).
    set (w1 := run [OpenCard a] w).
    set (w4 := closeModal true _).
    set (h := History.mk (History.past (history w1)) (History.current (history w1))
                [History.current (history w2); History.current (history w3)]).
    assert (Hb : History.back (history w4) = Some h) by reflexivity.
    cbn [handle]. unfold traverse. rewrite Hb.
    assert (Hget : Url.get "project" (location (with_history h w4))
                   = Some (card_id a)).
    { change (location (with_history h w4)) with (location (openFromCard a true w)).
      rewrite project_after_open. unfold project_param.
      apply truthy_iff in Hid. now rewrite Hid. }
    rewrite (popstate_reopens a (with_history h w4) Hget Hid Hq).
    split; [reflexivity|]. split; [reflexivity|]. split; [reflexivity|].
    split; [exact Hget|].
    cbn [openFromCard titleEl imgEl modalFlags with_history w4 closeModal
         w3 w1 run fold_left handle].
    rewrite !option_map_const, !renderBubbles_twice.
    repeat split.
Qed.

(** C2 on the sample page: the overlay opened without a push is closed by
    the handler, and two steps back after Alpha, close, Beta show Alpha. *)
Lemma C2_popstate_replays_history_witness :
  popstate (openFromCard Sample.alpha false Sample.fresh)
  = closeModal true (openFromCard Sample.alpha false Sample.fresh)
  /\ titleEl (run [OpenCard Sample.alpha; CloseControl; OpenCard Sample.beta;
                   Back; Back] Sample.fresh)
     = Some "Alpha".
Proof.
  split.
  - apply (proj1 C2_popstate_replays_history); reflexivity.
  - assert (Hid : card_id Sample.alpha <> "") by discriminate.
    assert (Hq : query_card (card_id Sample.alpha) Sample.fresh = Some Sample.alpha)
      by reflexivity.
    pose proof (proj2 (proj2 (proj2 (proj2 C2_popstate_replays_history)))
                  Sample.alpha Sample.beta Sample.fresh Hid Hq) as H.
    cbv zeta in H.
    destruct H as [_ [_ [_ [_ [_ [Ht _]]]]]].
    exact Ht.
Defined.

(** C2 as stated fails on the sample page: after Alpha, close, Beta, the
    back button does not reopen a project; the overlay is marked hidden,
    the URL has no [project] parameter, and the overlay still holds Beta's
    title. *)
Lemma C2_back_closes_the_overlay :
  is_open (run [OpenCard Sample.alpha; CloseControl; OpenCard Sample.beta; Back]
               Sample.fresh) = false
  /\ aria_hidden (run [OpenCard Sample.alpha; CloseControl;
                       OpenCard Sample.beta; Back] Sample.fresh)
     = Some "true"
  /\ has_project (run [OpenCard Sample.alpha; CloseControl;
                       OpenCard Sample.beta; Back] Sample.fresh) = false
  /\ titleEl (run [OpenCard Sample.alpha; CloseControl;
                   OpenCard Sample.beta; Back] Sample.fresh)
     = Some "Project".
Proof. repeat split. Qed.

(** ** C3: direct transitions push *)

Lemma project_param_eq (id : string) :
  project_param id = if id =? "" then "p" else id.
Proof. unfold project_param, Js.truthy. now destruct (id =? ""). Qed.

Lemma push_keeps_current (st : History.Payload) (u : Url.t) (h : History.t) :
  History.entries (History.pushState st u h)
  = rev (History.past h) ++ [History.current h; History.mkEntry st u].
Proof. unfold History.entries. cbn. now rewrite <- app_assoc. Qed.

(** A history whose past is one entry longer is not the result of a
    replacement. *)
Lemma push_is_not_replace (h h' : History.t) (st : History.Payload) (u : Url.t) :
  History.past h' = History.current h :: History.past h ->
  h' <> History.replaceState st u h.
Proof.
  intros Hp Heq. rewrite Heq in Hp. cbn [History.replaceState History.past] in Hp.
  apply (f_equal (@List.length _)) in Hp. cbn [List.length] in Hp. lia.
Qed.

(** C3.  [openFromCard] with [pushHistory] and [closeModal] without
    [fromHistory] each put one new entry after the current one, which stays
    in place right behind it.  The entry of an open has [project=<id>] in
    its URL ([project=p] for an empty id) and the id in its state; the
    entry of a close has no [project] parameter.  Opening A and then B adds
    two entries after the one that was current, and the URL then has B's
    id as its [project] parameter ([p] when B's id is empty). *)
Theorem C3_direct_transitions_push :
  (forall card w,
     let w' := openFromCard card true w in
     History.past (history w')
       = History.current (history w) :: History.past (history w)
     /\ History.e_state (History.current (history w'))
        = History.StProject (card_id card)
     /\ Url.get "project" (location w')
        = Some (if card_id card =? "" then "p" else card_id card)
     /\ forall st u, history w' <> History.replaceState st u (history w))
  /\ (forall w,
        let w' := closeModal false w in
        History.past (history w')
          = History.current (history w) :: History.past (history w)
        /\ History.e_state (History.current (history w')) = History.StEmpty
        /\ has_project w' = false
        /\ forall st u, history w' <> History.replaceState st u (history w))
  /\ (forall a b w,
        let w' := run [OpenCard a; OpenCard b] w in
        exists ea eb,
          History.entries (history w')
            = rev (History.past (history w))
              ++ [History.current (history w); ea; eb]
          /\ History.current (history w') = eb
          /\ History.e_state ea = History.StProject (card_id a)
          /\ Url.get "project" (History.e_url ea)
             = Some (if card_id a =? "" then "p" else card_id a)
          /\ History.e_state eb = History.StProject (card_id b)
          /\ Url.get "project" (location w')
             = Some (if card_id b =? "" then "p" else card_id b)
          /\ (card_id b <> "" ->
              Url.get "project" (location w') = Some (card_id b))).
Proof.
  split; [|split].
  - intros card w w'. subst w'.
    split; [reflexivity|]. split; [reflexivity|].
    split; [now rewrite project_after_open, project_param_eq|].
    intros st u. apply push_is_not_replace. reflexivity.
  - intros w w'. subst w'.
    split; [reflexivity|]. split; [reflexivity|].
    split; [apply has_project_after_close|].
    intros st u. apply push_is_not_replace. reflexivity.
  - intros a b w w'. subst w'.
    change (run [OpenCard a; OpenCard b] w)
      with (openFromCard b true (openFromCard a true w)).
    exists (History.current (history (openFromCard a true w))).
    exists (History.current (history (openFromCard b true (openFromCard a true w)))).
    split.
    { unfold History.entries. cbn. now rewrite <- !app_assoc. }
    split; [reflexivity|]. split; [reflexivity|].
    split.
    { change (History.e_url (History.current (history (openFromCard a true w))))
        with (location (openFromCard a true w)).
      now rewrite project_after_open, project_param_eq. }
    split; [reflexivity|].
    rewrite project_after_open, project_param_eq.
    split; [reflexivity|].
    intros Hne. apply String.eqb_neq in Hne. now rewrite Hne.
Qed.

(** C3 on the sample page: after Alpha then Beta the URL names Beta. *)
Lemma C3_direct_transitions_push_witness :
  Url.get "project"
    (location (run [OpenCard Sample.alpha; OpenCard Sample.beta] Sample.fresh))
  = Some "beta".
Proof.
  destruct (proj2 (proj2 C3_direct_transitions_push)
              Sample.alpha Sample.beta Sample.fresh)
    as [ea [eb [_ [_ [_ [_ [_ [_ H]]]]]]]].
  apply H. discriminate.
Defined.

(** ** C4: a deep link at load *)

(** C4, as the code has it.  When the page loads on a URL whose [project]
    parameter is a non-empty X without U+0000 and some card has [data-id]
    X, then right after the set-up the overlay is open and shows the first
    such card
    (title, image and badges in the elements the overlay has), and the
    session history is the one the browser had. *)
Theorem C4_deep_link_opens_card (w : World) (X : string) :
  Url.get "project" (location w) = Some X -> X <> "" -> has_nul X = false ->
  (exists c, In c (cards w) /\ data_id c = Some X) ->
  exists card,
    query_card X w = Some card
    /\ In card (cards w) /\ data_id card = Some X
    /\ fst (openFromUrl false w) = true
    /\ is_open (on_load w) = true
    /\ titleEl (on_load w) = option_map (fun _ => card_title card) (titleEl w)
    /\ imgEl (on_load w)
       = option_map (fun _ => mkImg (displayed_image card) (card_title card))
                    (imgEl w)
    /\ modalFlags (on_load w)
       = option_map (fun _ => bubbles_of (card_tools card)) (modalFlags w)
    /\ history (on_load w) = history w.
Proof.
  intros Hget Hne Hnul Hex.
  destruct (query_card_complete X w Hnul Hex) as [card Hq].
  exists card. split; [exact Hq|].
  destruct (query_card_sound X w card Hq) as [Hin Hid].
  split; [exact Hin|]. split; [exact Hid|].
  unfold on_load. rewrite (openFromUrl_found false w X card Hget Hne Hq).
  cbn [fst snd].
  repeat split.
  cbn [openFromCard modalFlags]. apply renderBubbles_spec.
Qed.

(** C4 on the sample page loaded from a link to [beta]. *)
Lemma C4_deep_link_opens_card_witness :
  exists card,
    query_card "beta" Sample.beta_link = Some card
    /\ In card (cards Sample.beta_link) /\ data_id card = Some "beta"
    /\ fst (openFromUrl false Sample.beta_link) = true
    /\ is_open (on_load Sample.beta_link) = true
    /\ titleEl (on_load Sample.beta_link)
       = option_map (fun _ => card_title card) (titleEl Sample.beta_link)
    /\ imgEl (on_load Sample.beta_link)
       = option_map (fun _ => mkImg (displayed_image card) (card_title card))
                    (imgEl Sample.beta_link)
    /\ modalFlags (on_load Sample.beta_link)
       = option_map (fun _ => bubbles_of (card_tools card))
                    (modalFlags Sample.beta_link)
    /\ history (on_load Sample.beta_link) = history Sample.beta_link.
Proof.
  apply (C4_deep_link_opens_card Sample.beta_link "beta").
  - reflexivity.
  - discriminate.
  - reflexivity.
  - exists Sample.beta. split; [simpl; tauto | reflexivity].
Defined.

(** C4 as stated fails when X is the empty string: the page is loaded
    from [?project=], a card has the empty [data-id], and the overlay stays
    closed. *)
Lemma C4_empty_project_stays_closed :
  Url.get "project" (location Sample.empty_link) = Some ""
  /\ In Sample.anon (cards Sample.empty_link)
  /\ data_id Sample.anon = Some ""
  /\ openFromUrl false Sample.empty_link = (false, Sample.empty_link)
  /\ is_open (on_load Sample.empty_link) = false.
Proof.
  repeat split. simpl. tauto.
Qed.

(** ** C5: a deep link to no card *)



(** ** C6: what a close changes *)

(** C6.  [closeModal(true)] leaves the session history, and with it the
    URL, as it found them, marks the overlay hidden and resets the page
    scroll; [closeModal(false)] does the same to the overlay and the scroll
    and pushes one entry whose URL is the current one without [project].
    Opening a card and then closing, by a close control or the Escape key,
    or by the back button onto an entry without [project], leaves the URL
    without [project] and the overlay marked hidden. *)
Theorem C6_close_effects :
  (forall w,
     let w' := closeModal true w in
     history w' = history w /\ location w' = location w
     /\ marked_hidden w' /\ body_overflow w' = "" /\ same_content w w')
  /\ (forall w,
        let w' := closeModal false w in
        marked_hidden w' /\ body_overflow w' = "" /\ same_content w w'
        /\ History.past (history w')
           = History.current (history w) :: History.past (history w)
        /\ History.future (history w') = []
        /\ History.e_state (History.current (history w')) = History.StEmpty
        /\ location w' = Url.delete "project" (location w)
        /\ has_project w' = false)
  /\ (forall card push w e,
        e = CloseControl \/ e = Escape ->
        let w' := handle (openFromCard card push w) e in
        has_project w' = false /\ marked_hidden w')
  /\ (forall card w,
        has_project w = false ->
        let w' := run [OpenCard card; Back] w in
        has_project w' = false /\ marked_hidden w'
        /\ History.entries (history w')
           = History.entries (history (openFromCard card true w))).
Proof.
  split; [|split; [|split]].
  - intros w w'. subst w'. unfold same_content, marked_hidden. repeat split.
  - intros w w'. subst w'. unfold same_content, marked_hidden.
    repeat split. apply has_project_after_close.
  - intros card push w e He w'. subst w'.
    assert (H : handle (openFromCard card push w) e
                = closeModal false (openFromCard card push w))
      by (destruct He as [-> | ->]; reflexivity).
    rewrite H. split; [apply has_project_after_close | reflexivity].
  - intros card w Hh w'. subst w'.
    change (run [OpenCard card; Back] w)
      with (traverse History.back (openFromCard card true w)).
    split; [|split; [|apply entries_traverse_back]].
    + unfold traverse.
      change (History.back (history (openFromCard card true w)))
        with (Some (History.mk (History.past (history w))
                      (History.current (history w))
                      [History.current (history (openFromCard card true w))])).
      cbv iota. unfold has_project. unfold location at 1.
      rewrite popstate_history. exact Hh.
    + unfold traverse.
      change (History.back (history (openFromCard card true w)))
        with (Some (History.mk (History.past (history w))
                      (History.current (history w))
                      [History.current (history (openFromCard card true w))])).
      cbv iota. set (h := History.mk _ _ _).
      unfold popstate.
      change (Url.has "project"
                (location (with_history h (openFromCard card true w))))
        with (has_project w).
      rewrite Hh. reflexivity.
Qed.

(** C6 on the sample page: Alpha, then Escape; Alpha, then back. *)
Lemma C6_close_effects_witness :
  (has_project (handle (openFromCard Sample.alpha true Sample.fresh) Escape)
   = false
   /\ marked_hidden (handle (openFromCard Sample.alpha true Sample.fresh) Escape))
  /\ has_project (run [OpenCard Sample.alpha; Back] Sample.fresh) = false.
Proof.
  split.
  - apply (proj1 (proj2 (proj2 C6_close_effects))
             Sample.alpha true Sample.fresh Escape).
    right. reflexivity.
  - apply (proj2 (proj2 (proj2 C6_close_effects)) Sample.alpha Sample.fresh).
    reflexivity.
Defined.

(** ** C7: badges and tool keys *)

(** When no key of the card's list reaches [Object.prototype], opening the
    card leaves in the container one badge per recognized key, in input
    order, each built from the key's descriptor. *)
Lemma open_badges_own_keys (card : Card) (push : bool) (w : World) :
  forallb (fun k => negb (reaches_prototype k)) (card_tools card) = true ->
  modalFlags (openFromCard card push w)
  = option_map (fun _ => descriptor_badges (card_tools card)) (modalFlags w)
  /\ List.length (descriptor_badges (card_tools card))
     = List.length (filter recognized (card_tools card)).
Proof.
  intros H. split; [|apply length_descriptor_badges].
  cbn [openFromCard modalFlags].
  now rewrite renderBubbles_spec, (bubbles_of_own_keys _ H).
Qed.

(** C7 at a card with [data-tools="constructor"]: the list has one key, the
    table recognizes none, and yet the container holds one badge after the
    card is opened, because the lookup [toolConfig[normalizedKey]] finds
    [constructor] on [Object.prototype]. *)
Theorem C7_prototype_key_renders_badge :
  card_tools Sample.odd_tool = ["constructor"]
  /\ filter recognized (card_tools Sample.odd_tool) = []
  /\ toolConfig_get (normalizedKey "constructor") = Inherited
  /\ modalFlags (openFromCard Sample.odd_tool true Sample.fresh)
     = Some [mkBubble "undefined" "undefined" (TextLabel "")].
Proof. repeat split. Qed.

(** ** C8: which image is shown *)

Lemma or_else_filled (a : option string) (d : string) :
  Js.or_else a d = match filled a with Some s => s | None => d end.
Proof.
  unfold Js.or_else, filled. destruct a as [s|]; [|reflexivity].
  now destruct (Js.truthy s).
Qed.

Lemma filled_truthy (a : option string) (s : string) :
  filled a = Some s -> Js.truthy s = true.
Proof.
  unfold filled. destruct a as [v|]; [|discriminate].
  destruct (Js.truthy v) eqn:E; [|discriminate].
  intros H. injection H as <-. exact E.
Qed.

(** C8, as the code has it.  The image shown for a card is its [data-img]
    attribute when that is present and not empty; otherwise the source of
    its nested image when there is one and it is not empty; otherwise the
    placeholder URL built from the encoded card id, with the key [long]
    when the id is empty.  Where every attribute that is present is also
    non-empty, this is the priority by presence. *)
Theorem C8_image_priority (card : Card) (push : bool) (w : World) :
  imgEl (openFromCard card push w)
  = option_map (fun _ => mkImg (displayed_image card) (card_title card)) (imgEl w)
  /\ displayed_image card
     = match filled (data_img card) with
       | Some s => s
       | None =>
           match filled (img_src card) with
           | Some s => s
           | None =>
               ("https://picsum.photos/seed/"
                ++ Js.encodeURIComponent
                     (if card_id card =? "" then "long" else card_id card)
                ++ "/900/3000")%string
           end
       end
  /\ (filled (data_img card) = None -> filled (img_src card) = None ->
      card_id card = "" ->
      displayed_image card = "https://picsum.photos/seed/long/900/3000")
  /\ (data_img card <> Some "" ->
      (data_img card = None -> img_src card <> Some "") ->
      displayed_image card = image_by_presence card).
Proof.
  assert (Hd : displayed_image card
     = match filled (data_img card) with
       | Some s => s
       | None =>
           match filled (img_src card) with
           | Some s => s
           | None =>
               ("https://picsum.photos/seed/"
                ++ Js.encodeURIComponent
                     (if card_id card =? "" then "long" else card_id card)
                ++ "/900/3000")%string
           end
       end).
  { unfold displayed_image, card_img. rewrite !or_else_filled.
    destruct (filled (data_img card)) as [s|] eqn:E1.
    - now rewrite (filled_truthy _ _ E1).
    - destruct (filled (img_src card)) as [s|] eqn:E2.
      + now rewrite (filled_truthy _ _ E2).
      + cbn [Js.truthy String.eqb negb]. unfold placeholder, Js.truthy.
        now destruct (card_id card =? ""). }
  split; [reflexivity|]. split; [exact Hd|]. split.
  - intros H1 H2 H3. rewrite Hd, H1, H2, H3. reflexivity.
  - intros H1 H2. rewrite Hd. unfold image_by_presence, filled.
    destruct (data_img card) as [s|].
    + destruct (Js.truthy s) eqn:E; [reflexivity|].
      exfalso. apply H1. f_equal.
      unfold Js.truthy in E. apply negb_false_iff in E.
      now apply String.eqb_eq.
    + specialize (H2 eq_refl). destruct (img_src card) as [s|].
      * destruct (Js.truthy s) eqn:E; [reflexivity|].
        exfalso. apply H2. f_equal.
        unfold Js.truthy in E. apply negb_false_iff in E.
        now apply String.eqb_eq.
      * unfold placeholder, Js.truthy. now destruct (card_id card =? "").
Qed.

(** C8 on the card without id and picture: the [long] placeholder. *)
Lemma C8_image_priority_witness :
  displayed_image Sample.anon = "https://picsum.photos/seed/long/900/3000"
  /\ displayed_image Sample.beta = image_by_presence Sample.beta.
Proof.
  split.
  - apply (proj1 (proj2 (proj2
             (C8_image_priority Sample.anon true Sample.fresh))));
      reflexivity.
  - apply (proj2 (proj2 (proj2
             (C8_image_priority Sample.beta true Sample.fresh))));
      [discriminate | intros _; discriminate].
Defined.

(** C8 as stated fails on a card whose [data-img] is present but empty:
    the nested thumbnail is shown, not the attribute's value. *)
Lemma C8_empty_data_img_falls_through :
  data_img Sample.blank_img = Some ""
  /\ image_by_presence Sample.blank_img = ""
  /\ displayed_image Sample.blank_img = "img/gamma-thumb.png"
  /\ imgEl (openFromCard Sample.blank_img true Sample.fresh)
     = Some (mkImg "img/gamma-thumb.png" "Gamma")
  /\ displayed_image Sample.blank_img <> image_by_presence Sample.blank_img.
Proof. repeat split. discriminate. Qed.

(** ** C9: the container is cleared on every open *)

Lemma open_each_snoc (calls : list (Card * bool)) (card : Card) (push : bool)
      (w : World) :
  open_each (calls ++ [(card, push)]) w
  = openFromCard card push (open_each calls w).
Proof. unfold open_each. now rewrite fold_left_app. Qed.

(** Opening cards neither adds nor removes the container itself. *)
Lemma open_each_container {A : Type} (x : A) (calls : list (Card * bool))
      (w : World) :
  option_map (fun _ => x) (modalFlags (open_each calls w))
  = option_map (fun _ => x) (modalFlags w).
Proof.
  revert w. induction calls as [|[c p] r IH]; intros w; [reflexivity|].
  change (open_each ((c, p) :: r) w) with (open_each r (openFromCard c p w)).
  rewrite IH. cbn [openFromCard modalFlags].
  rewrite renderBubbles_spec. apply option_map_const.
Qed.

(** C9.  [renderBubbles] gives the same container whatever it held
    before, and after any sequence of [openFromCard] calls the container,
    when the overlay has one, holds exactly the badges of the last card's
    tool list. *)
Theorem C9_badges_of_last_open_only :
  (forall tools before,
     renderBubbles tools (Some before) = Some (bubbles_of tools))
  /\ (forall calls card push w,
        modalFlags (open_each (calls ++ [(card, push)]) w)
        = option_map (fun _ => bubbles_of (card_tools card)) (modalFlags w)).
Proof.
  split.
  - intros tools before. apply (renderBubbles_spec tools (Some before)).
  - intros calls card push w. rewrite open_each_snoc.
    cbn [openFromCard modalFlags]. rewrite renderBubbles_spec.
    apply open_each_container.
Qed.

(** ** C10: cards with an empty id *)

(** C10.  Opening, with a push, a card whose id is empty puts [project=p]
    in the URL and the empty id in the state of the new entry.  On any page
    at that URL [openFromUrl] looks for the first card with [data-id] "p":
    it opens that card, which is never the original one, or returns
    [false] and changes nothing when there is none. *)
Theorem C10_empty_id_no_round_trip (card : Card) (w : World) :
  card_id card = "" ->
  Url.get "project" (location (openFromCard card true w)) = Some "p"
  /\ History.e_state (History.current (history (openFromCard card true w)))
     = History.StProject ""
  /\ (forall w2 push,
        location w2 = location (openFromCard card true w) ->
        openFromUrl push w2
        = match query_card "p" w2 with
          | Some c => (true, openFromCard c push w2)
          | None => (false, w2)
          end)
  /\ (forall w2 push,
        location w2 = location (openFromCard card true w) ->
        (forall c, In c (cards w2) -> data_id c <> Some "p") ->
        openFromUrl push w2 = (false, w2))
  /\ (forall w2 c, query_card "p" w2 = Some c -> c <> card).
Proof.
  intros Hid.
  assert (Hget : Url.get "project" (location (openFromCard card true w)) = Some "p").
  { rewrite project_after_open, Hid. reflexivity. }
  split; [exact Hget|].
  split; [cbn; now rewrite Hid|].
  assert (Hstep : forall w2 push,
        location w2 = location (openFromCard card true w) ->
        openFromUrl push w2
        = match query_card "p" w2 with
          | Some c => (true, openFromCard c push w2)
          | None => (false, w2)
          end).
  { intros w2 push Hl. unfold openFromUrl. rewrite Hl, Hget. reflexivity. }
  split; [exact Hstep|]. split.
  - intros w2 push Hl Hno. rewrite (Hstep w2 push Hl).
    now rewrite (query_card_none "p" w2 Hno).
  - intros w2 c Hq Heq. subst c.
    destruct (query_card_sound "p" w2 card Hq) as [_ Hd].
    unfold card_id in Hid. rewrite Hd in Hid. discriminate Hid.
Qed.

(** C10 on the sample page, whose card without id is [anon]. *)
Lemma C10_empty_id_no_round_trip_witness :
  Url.get "project" (location (openFromCard Sample.anon true Sample.fresh))
  = Some "p"
  /\ openFromUrl false (on_load (openFromCard Sample.anon true Sample.fresh))
     = (false, on_load (openFromCard Sample.anon true Sample.fresh)).
Proof.
  assert (Hid : card_id Sample.anon = "") by reflexivity.
  pose proof (C10_empty_id_no_round_trip Sample.anon Sample.fresh Hid)
    as [H1 [_ [_ [H4 _]]]].
  split; [exact H1|].
  apply H4; [reflexivity|].
  intros c Hin. simpl in Hin.
  destruct Hin as [<-|[<-|[<-|[]]]]; discriminate.
Defined.

(** * Further properties of the controller *)

(** ** Pages with the same elements *)

Lemma same_elements_refl (w : World) : same_elements w w.
Proof. unfold same_elements. tauto. Qed.

Lemma same_elements_trans (w1 w2 w3 : World) :
  same_elements w1 w2 -> same_elements w2 w3 -> same_elements w1 w3.
Proof. unfold same_elements. intuition congruence. Qed.

Lemma present_option_map {A B : Type} (f : A -> B) (o : option A) :
  present (option_map f o) = present o.
Proof. now destruct o. Qed.

Lemma present_renderBubbles (tools : list string) (mf : option (list Bubble)) :
  present (renderBubbles tools mf) = present mf.
Proof. now destruct mf. Qed.

Lemma same_elements_open (card : Card) (push : bool) (w : World) :
  same_elements w (openFromCard card push w).
Proof.
  unfold same_elements. cbn [openFromCard cards titleEl imgEl modalFlags frame_focus].
  now rewrite !present_option_map, present_renderBubbles.
Qed.

Lemma same_elements_close (fromHistory : bool) (w : World) :
  same_elements w (closeModal fromHistory w).
Proof. unfold same_elements. cbn. tauto. Qed.

Lemma same_elements_with_history (h : History.t) (w : World) :
  same_elements w (with_history h w).
Proof. unfold same_elements. cbn. tauto. Qed.

Lemma same_elements_openFromUrl (push : bool) (w : World) :
  same_elements w (snd (openFromUrl push w)).
Proof.
  unfold openFromUrl.
  destruct (Url.get "project" (location w)) as [id|];
    [|apply same_elements_refl].
  destruct (negb (Js.truthy id)); [apply same_elements_refl|].
  destruct (query_card id w); [apply same_elements_open | apply same_elements_refl].
Qed.

Lemma same_elements_popstate (w : World) : same_elements w (popstate w).
Proof.
  unfold popstate. destruct (negb (Url.has "project" (location w))).
  - destruct (is_open w); [apply same_elements_close | apply same_elements_refl].
  - apply same_elements_openFromUrl.
Qed.

Lemma same_elements_traverse (move : History.t -> option History.t) (w : World) :
  same_elements w (traverse move w).
Proof.
  unfold traverse. destruct (move (history w)) as [h|];
    [|apply same_elements_refl].
  eapply same_elements_trans;
    [apply same_elements_with_history | apply same_elements_popstate].
Qed.

Lemma same_elements_handle (w : World) (e : Event) :
  same_elements w (handle w e).
Proof.
  destruct e; cbn [handle].
  - apply same_elements_open.
  - apply same_elements_close.
  - destruct (is_open w); [apply same_elements_close | apply same_elements_refl].
  - apply same_elements_traverse.
  - apply same_elements_traverse.
Qed.

Lemma same_elements_run (es : list Event) (w : World) :
  same_elements w (run es w).
Proof.
  revert w. induction es as [|e r IH]; intros w; [apply same_elements_refl|].
  change (run (e :: r) w) with (run r (handle w e)).
  eapply same_elements_trans; [apply same_elements_handle | apply IH].
Qed.

Lemma present_const {A B C : Type} (x : C) (o : option A) (o' : option B) :
  present o' = present o ->
  option_map (fun _ => x) o' = option_map (fun _ => x) o.
Proof. destruct o, o'; cbn; congruence. Qed.

(** What an open writes depends on the card and on which elements the
    overlay has, not on what they held. *)
Lemma open_overwrites (card : Card) (p q : bool) (h : History.t) (w w' : World) :
  same_elements w w' ->
  with_history h (openFromCard card p w') = with_history h (openFromCard card q w).
Proof.
  intros [Hc [Ht [Hi [Hm Hf]]]].
  unfold with_history, openFromCard.
  cbn [cards titleEl imgEl modalFlags aria_hidden body_overflow frame_focus history].
  rewrite !renderBubbles_spec, Hc.
  rewrite (present_const _ _ _ Ht), (present_const _ _ _ Hi),
          (present_const _ _ _ Hm), (present_const _ _ _ Hf).
  reflexivity.
Qed.

Lemma with_history_own (w : World) : with_history (history w) w = w.
Proof. now destruct w. Qed.

(** ** Overlay and URL along any sequence of inputs *)

Lemma card_id_data_id (c : Card) :
  card_id c <> "" -> data_id c = Some (card_id c).
Proof.
  unfold card_id, Js.or_else. destruct (data_id c) as [s|]; [|congruence].
  destruct (Js.truthy s); congruence.
Qed.

Lemma entries_forward (h h' : History.t) :
  History.forward h = Some h' -> History.entries h' = History.entries h.
Proof.
  unfold History.forward, History.entries.
  destruct h as [p c f]; cbn [History.past History.current History.future].
  destruct f as [|e f]; [discriminate|].
  intros H. injection H as <-.
  cbn [History.past History.current History.future rev].
  now rewrite <- app_assoc.
Qed.

Lemma current_in_entries (h : History.t) :
  In (History.current h) (History.entries h).
Proof. unfold History.entries. apply in_or_app. right. now left. Qed.

Lemma resolvable_pushed (st : History.Payload) (u : Url.t) (w : World) :
  well_linked w -> resolvable (cards w) u ->
  Forall (fun e => resolvable (cards w) (History.e_url e))
         (History.entries (History.pushState st u (history w))).
Proof.
  unfold well_linked, History.entries. intros Hw Hu.
  cbn [History.pushState History.past History.current History.future rev].
  apply Forall_app in Hw. destruct Hw as [Hp Hc].
  rewrite <- app_assoc. apply Forall_app. split; [exact Hp|].
  cbn [app]. constructor; [now inversion Hc|].
  constructor; [exact Hu | constructor].
Qed.

Lemma popstate_consistent (w : World) :
  resolvable (cards w) (location w) -> consistent (popstate w).
Proof.
  intros [Hno | [id [c [Hget [Hne [Hnul [Hin Hid]]]]]]].
  - unfold popstate. rewrite Hno. cbn [negb].
    destruct (is_open w) eqn:Ho.
    + unfold consistent, has_project.
      rewrite is_open_after_close.
      change (location (closeModal true w)) with (location w).
      rewrite Hno. tauto.
    + unfold consistent, has_project. rewrite Ho, Hno. tauto.
  - assert (Hh : Url.has "project" (location w) = true)
      by (apply sp_has_get; now exists id).
    unfold popstate. rewrite Hh. cbn [negb].
    destruct (query_card_complete id w Hnul) as [card Hq]; [now exists c|].
    rewrite (openFromUrl_found false w id card Hget Hne Hq). cbn [snd].
    unfold consistent, has_project. rewrite is_open_after_open.
    change (location (openFromCard card false w)) with (location w).
    rewrite Hh. tauto.
Qed.

Lemma traverse_keeps (move : History.t -> option History.t) (w : World) :
  (forall h h', move h = Some h' -> History.entries h' = History.entries h) ->
  consistent w -> well_linked w ->
  consistent (traverse move w) /\ well_linked (traverse move w).
Proof.
  intros Hmove Hc Hw. unfold traverse.
  destruct (move (history w)) as [h|] eqn:E; [|now split].
  pose proof (Hmove _ _ E) as He.
  assert (Hw' : well_linked (with_history h w)).
  { unfold well_linked. cbn [with_history cards history]. rewrite He. exact Hw. }
  split.
  - apply popstate_consistent.
    unfold well_linked in Hw'. rewrite Forall_forall in Hw'.
    apply (Hw' (History.current (history (with_history h w)))).
    apply current_in_entries.
  - unfold well_linked. rewrite popstate_history.
    destruct (same_elements_popstate (with_history h w)) as [-> _].
    exact Hw'.
Qed.

Lemma handle_keeps (w : World) (e : Event) :
  consistent w -> well_linked w -> opens_listed_card (cards w) e ->
  consistent (handle w e) /\ well_linked (handle w e).
Proof.
  intros Hc Hw He. destruct e as [card| | | |]; cbn [handle].
  - split; [apply consistent_after_open|].
    destruct He as [Hin [Hid Hnul]].
    unfold well_linked.
    change (cards (openFromCard card true w)) with (cards w).
    apply resolvable_pushed; [exact Hw|].
    right. exists (card_id card), card.
    split.
    { unfold Url.get, Url.set. cbn [Url.query].
      rewrite sp_get_set. f_equal. unfold project_param.
      apply truthy_iff in Hid. now rewrite Hid. }
    split; [exact Hid|]. split; [exact Hnul|]. split; [exact Hin|].
    now apply card_id_data_id.
  - split; [apply consistent_after_close|].
    unfold well_linked.
    change (cards (closeModal false w)) with (cards w).
    apply resolvable_pushed; [exact Hw|].
    left. unfold Url.has, Url.delete. cbn [Url.query]. apply sp_has_delete.
  - destruct (is_open w); [|now split].
    split; [apply consistent_after_close|].
    unfold well_linked.
    change (cards (closeModal false w)) with (cards w).
    apply resolvable_pushed; [exact Hw|].
    left. unfold Url.has, Url.delete. cbn [Url.query]. apply sp_has_delete.
  - apply traverse_keeps; [exact entries_back | exact Hc | exact Hw].
  - apply traverse_keeps; [exact entries_forward | exact Hc | exact Hw].
Qed.

(** X1.  On a page where every card that gets opened has a [data-id]
    that is not empty and holds no U+0000, and whose history entries all
    have a URL without [project] or with such an id of a card, any sequence
    of runs of the card listener, the close listeners, the Escape listener
    and of back and forward steps keeps the overlay visible exactly when
    the URL has a [project] parameter, and keeps the history entries of
    that kind. *)
Theorem X1_consistent_along_runs (es : list Event) (w : World) :
  consistent w -> well_linked w ->
  Forall (opens_listed_card (cards w)) es ->
  consistent (run es w) /\ well_linked (run es w).
Proof.
  revert w. induction es as [|e r IH]; intros w Hc Hw Hes; [now split|].
  change (run (e :: r) w) with (run r (handle w e)).
  inversion Hes as [|e' r' He Hr]; subst.
  destruct (handle_keeps w e Hc Hw He) as [Hc' Hw'].
  apply IH; [exact Hc' | exact Hw'|].
  destruct (same_elements_handle w e) as [-> _]. exact Hr.
Qed.

(** X1 on the sample page: Alpha, Escape, Beta, back, back, forward. *)
Lemma X1_consistent_along_runs_witness :
  consistent (run [OpenCard Sample.alpha; Escape; OpenCard Sample.beta;
                   Back; Back; Forward] Sample.fresh).
Proof.
  apply (X1_consistent_along_runs
           [OpenCard Sample.alpha; Escape; OpenCard Sample.beta;
            Back; Back; Forward] Sample.fresh).
  - split; discriminate.
  - repeat constructor.
  - repeat constructor; cbn; try tauto; try reflexivity; discriminate.
Defined.

(** ** Links made by the controller *)

(** X2.  The URL pushed by opening a card with a non-empty id is a working
    deep link: on any page at that URL on which the lookup by this id finds
    this card (it is the first card with the id, and the id holds no
    U+0000), [openFromUrl(false)] returns [true] and opens this card,
    leaving the session history alone. *)
Theorem X2_pushed_link_reopens_card (card : Card) (w w2 : World) :
  card_id card <> "" ->
  location w2 = location (openFromCard card true w) ->
  query_card (card_id card) w2 = Some card ->
  openFromUrl false w2 = (true, openFromCard card false w2)
  /\ on_load w2 = openFromCard card false w2
  /\ history (on_load w2) = history w2.
Proof.
  intros Hid Hl Hq.
  assert (Hget : Url.get "project" (location w2) = Some (card_id card)).
  { rewrite Hl, project_after_open. unfold project_param.
    apply truthy_iff in Hid. now rewrite Hid. }
  pose proof (openFromUrl_found false w2 (card_id card) card Hget Hid Hq) as H.
  split; [exact H|]. unfold on_load. rewrite H. split; reflexivity.
Qed.

(** X2 on the sample page: the link pushed for Beta, loaded afresh. *)
Lemma X2_pushed_link_reopens_card_witness :
  openFromUrl false Sample.beta_link
  = (true, openFromCard Sample.beta false Sample.beta_link).
Proof.
  apply (X2_pushed_link_reopens_card Sample.beta Sample.fresh Sample.beta_link).
  - discriminate.
  - reflexivity.
  - reflexivity.
Defined.

(** X3.  Open a card with a non-empty id that the lookup by this id finds
    (the first card of that id, the id without U+0000), step back, step
    forward: the page and the session history are exactly as they were
    right after the open. *)
Theorem X3_back_forward_round_trip (a : Card) (w : World) :
  card_id a <> "" -> query_card (card_id a) w = Some a ->
  run [OpenCard a; Back; Forward] w = openFromCard a true w.
Proof.
  intros Hid Hq.
  change (run [OpenCard a; Back; Forward] w)
    with (traverse History.forward (traverse History.back (openFromCard a true w))).
  set (w1 := openFromCard a true w).
  pose proof (same_elements_trans _ _ _ (same_elements_open a true w)
                (same_elements_traverse History.back w1)) as Hs.
  set (h2 := History.mk (History.past (history w)) (History.current (history w))
                        [History.current (history w1)]).
  assert (Hh2 : history (traverse History.back w1) = h2).
  { unfold traverse.
    change (History.back (history w1)) with (Some h2). cbv iota.
    now rewrite popstate_history. }
  set (w2 := traverse History.back w1) in *.
  unfold traverse at 1. rewrite Hh2.
  change (History.forward h2) with (Some (history w1)). cbv iota.
  assert (Hget : Url.get "project" (location (with_history (history w1) w2))
                 = Some (card_id a)).
  { change (location (with_history (history w1) w2)) with (location w1).
    unfold w1. rewrite project_after_open. unfold project_param.
    apply truthy_iff in Hid. now rewrite Hid. }
  assert (Hq2 : query_card (card_id a) (with_history (history w1) w2) = Some a).
  { unfold query_card. cbn [with_history cards].
    destruct Hs as [-> _]. exact Hq. }
  rewrite (popstate_reopens a _ Hget Hid Hq2).
  rewrite <- (with_history_own (openFromCard a false _)).
  rewrite <- (with_history_own w1) at 2.
  change (history (openFromCard a false (with_history (history w1) w2)))
    with (history w1).
  unfold w1 at 3.
  apply (open_overwrites a false true (history w1) w).
  eapply same_elements_trans; [exact Hs | apply same_elements_with_history].
Qed.

(** X3 on the sample page with the card Alpha. *)
Lemma X3_back_forward_round_trip_witness :
  run [OpenCard Sample.alpha; Back; Forward] Sample.fresh
  = openFromCard Sample.alpha true Sample.fresh.
Proof.
  apply (X3_back_forward_round_trip Sample.alpha Sample.fresh).
  - discriminate.
  - reflexivity.
Defined.

(** X4.  Whatever inputs came before, a direct open leaves the overlay,
    the page scroll and the focus exactly as the same open on the initial
    page would: apart from the session history, nothing of earlier opens,
    closes or history steps survives it. *)
Theorem X4_open_depends_on_card_only (es : list Event) (card : Card)
        (w : World) (h : History.t) :
  with_history h (run (es ++ [OpenCard card]) w)
  = with_history h (openFromCard card true w).
Proof.
  unfold run. rewrite fold_left_app. cbn [fold_left handle].
  apply (open_overwrites card true true h w). apply (same_elements_run es w).
Qed.

(** ** The URL outside its [project] parameter *)

Section OtherParameters.

Variable name : string.

Lemma sp_delete_idem (q : list (string * string)) :
  Url.sp_delete name (Url.sp_delete name q) = Url.sp_delete name q.
Proof.
  unfold Url.sp_delete. induction q as [|p r IH]; [reflexivity|].
  cbn [filter]. destruct (negb (Url.named name p)) eqn:E; [|exact IH].
  cbn [filter]. now rewrite E, IH.
Qed.

Lemma sp_delete_set (v : string) (q : list (string * string)) :
  Url.sp_delete name (Url.sp_set name v q) = Url.sp_delete name q.
Proof.
  induction q as [|p r IH].
  - cbn. unfold Url.named. cbn [fst]. now rewrite String.eqb_refl.
  - cbn [Url.sp_set]. destruct (Url.named name p) eqn:E.
    + unfold Url.sp_delete at 1 3. cbn [filter].
      unfold Url.named at 1. cbn [fst]. rewrite String.eqb_refl, E. cbn [negb].
      apply sp_delete_idem.
    + unfold Url.sp_delete at 1 2. cbn [filter]. rewrite E. cbn [negb].
      f_equal. exact IH.
Qed.

Lemma sp_delete_absent (q : list (string * string)) :
  Url.sp_has name q = false -> Url.sp_delete name q = q.
Proof.
  unfold Url.sp_has, Url.sp_delete. induction q as [|p r IH]; [reflexivity|].
  cbn [existsb filter]. intros H. apply orb_false_iff in H.
  destruct H as [Hp Hr]. rewrite Hp. cbn [negb]. f_equal. now apply IH.
Qed.

Lemma sp_get_delete_other (k : string) (q : list (string * string)) :
  k <> name -> Url.sp_get k (Url.sp_delete name q) = Url.sp_get k q.
Proof.
  intros Hk. unfold Url.sp_get, Url.sp_delete.
  induction q as [|p r IH]; [reflexivity|].
  cbn [filter find]. destruct (Url.named name p) eqn:E; cbn [negb].
  - assert (Hn : Url.named k p = false).
    { unfold Url.named in *. apply String.eqb_eq in E.
      apply String.eqb_neq. congruence. }
    now rewrite Hn.
  - cbn [find]. destruct (Url.named k p); [reflexivity | exact IH].
Qed.

Lemma sp_set_once (v : string) (q : list (string * string)) :
  List.length (filter (Url.named name) (Url.sp_set name v q)) = 1.
Proof.
  induction q as [|p r IH].
  - cbn. unfold Url.named. cbn [fst]. now rewrite String.eqb_refl.
  - cbn [Url.sp_set]. destruct (Url.named name p) eqn:E.
    + cbn [filter]. unfold Url.named at 1. cbn [fst]. rewrite String.eqb_refl.
      cbn [List.length]. f_equal.
      assert (Hn : forall l, filter (Url.named name) (Url.sp_delete name l) = []).
      { unfold Url.sp_delete. induction l as [|x l IHl]; [reflexivity|].
        cbn [filter]. destruct (Url.named name x) eqn:Ex; cbn [negb].
        - exact IHl.
        - cbn [filter]. now rewrite Ex. }
      now rewrite Hn.
    + cbn [filter]. now rewrite E.
Qed.

End OtherParameters.

Lemma sp_get_set_other (name k v : string) (q : list (string * string)) :
  k <> name -> Url.sp_get k (Url.sp_set name v q) = Url.sp_get k q.
Proof.
  intros Hk.
  rewrite <- (sp_get_delete_other name k (Url.sp_set name v q) Hk).
  rewrite sp_delete_set. now apply sp_get_delete_other.
Qed.

(** X5.  A push of the controller changes nothing of the URL but its
    [project] parameter: origin, path and fragment stay, every other query
    parameter keeps its place and value, and after an open the query holds
    exactly one [project] pair, also when the URL had several. *)
Theorem X5_url_outside_project_kept (card : Card) (w : World) :
  let u := location w in
  let uo := location (openFromCard card true w) in
  let uc := location (closeModal false w) in
  (Url.base uo = Url.base u /\ Url.fragment uo = Url.fragment u
   /\ Url.sp_delete "project" (Url.query uo)
      = Url.sp_delete "project" (Url.query u)
   /\ List.length (filter (Url.named "project") (Url.query uo)) = 1)
  /\ (Url.base uc = Url.base u /\ Url.fragment uc = Url.fragment u
      /\ Url.query uc = Url.sp_delete "project" (Url.query u))
  /\ (forall k, k <> "project" ->
        Url.get k uo = Url.get k u /\ Url.get k uc = Url.get k u).
Proof.
  intros u uo uc. subst u uo uc.
  unfold location, openFromCard, closeModal, History.location.
  cbn [history negb History.pushState History.current History.e_url
       Url.set Url.delete Url.base Url.fragment Url.query].
  split; [|split].
  - split; [reflexivity|]. split; [reflexivity|].
    split; [apply sp_delete_set | apply sp_set_once].
  - repeat split.
  - intros k Hk. unfold Url.get. cbn [Url.query].
    split; [now apply sp_get_set_other | now apply sp_get_delete_other].
Qed.

(** X5 at a URL with a campaign tag and two [project] pairs. *)
Lemma X5_url_outside_project_kept_witness :
  Url.get "utm"
    (location (openFromCard Sample.alpha true
                 (Sample.page Sample.portfolio
                    [("project", "beta"); ("utm", "mail"); ("project", "x")])))
  = Some "mail".
Proof.
  pose proof (X5_url_outside_project_kept Sample.alpha
                (Sample.page Sample.portfolio
                   [("project", "beta"); ("utm", "mail"); ("project", "x")]))
    as H.
  cbv zeta in H. destruct H as [_ [_ H]].
  destruct (H "utm") as [Ho _]; [discriminate|].
  rewrite Ho. reflexivity.
Defined.

Lemma close_runs_location (k : nat) (w : World) :
  location (run (repeat CloseControl (S k)) w)
  = Url.delete "project" (location w).
Proof.
  revert w. induction k as [|k IH]; intros w; [reflexivity|].
  change (run (repeat CloseControl (S (S k))) w)
    with (run (repeat CloseControl (S k)) (closeModal false w)).
  rewrite IH.
  change (location (closeModal false w)) with (Url.delete "project" (location w)).
  unfold Url.delete. cbn [Url.base Url.query Url.fragment].
  now rewrite sp_delete_idem.
Qed.

Lemma close_runs_past (n : nat) (w : World) :
  List.length (History.past (history (run (repeat CloseControl n) w)))
  = n + List.length (History.past (history w)).
Proof.
  revert w. induction n as [|n IH]; intros w; [reflexivity|].
  cbn [repeat].
  change (run (CloseControl :: repeat CloseControl n) w)
    with (run (repeat CloseControl n) (closeModal false w)).
  rewrite IH. cbn. lia.
Qed.

(** X6.  From a URL without [project], a run of the card listener followed
    by a click that reaches one or more close listeners ends on a URL with
    the same origin and path, the same query pairs in the same order, as
    [URLSearchParams] exposes them, and the same fragment; the session
    history has one more entry for the open and one for each close
    listener reached. *)
Theorem X6_open_close_returns_parameters (card : Card) (c : CloseClick)
        (w : World) :
  has_project w = false -> 0 < listeners_reached c ->
  let w' := run (OpenCard card :: close_click c) w in
  Url.base (location w') = Url.base (location w)
  /\ Url.query (location w') = Url.query (location w)
  /\ Url.fragment (location w') = Url.fragment (location w)
  /\ List.length (History.past (history w'))
     = 1 + listeners_reached c + List.length (History.past (history w)).
Proof.
  intros Hh Hc w'. subst w'. unfold close_click.
  change (run (OpenCard card :: repeat CloseControl (listeners_reached c)) w)
    with (run (repeat CloseControl (listeners_reached c))
              (openFromCard card true w)).
  rewrite close_runs_past.
  destruct (listeners_reached c) as [|k]; [lia|].
  rewrite close_runs_location.
  change (location (openFromCard card true w))
    with (Url.set "project" (project_param (card_id card)) (location w)).
  unfold has_project, Url.has in Hh.
  unfold Url.delete, Url.set. cbn [Url.base Url.fragment Url.query].
  rewrite sp_delete_set, (sp_delete_absent _ _ Hh).
  repeat split. cbn. lia.
Qed.

(** X6 on the sample page: Alpha, then a click on a close button that
    lies in the margin of the content. *)
Lemma X6_open_close_returns_parameters_witness :
  Url.query (location (run (OpenCard Sample.alpha
                              :: close_click (mkClick false true true))
                           Sample.fresh))
  = Url.query (location Sample.fresh)
  /\ List.length
       (History.past
          (history (run (OpenCard Sample.alpha
                           :: close_click (mkClick false true true))
                        Sample.fresh)))
     = 3.
Proof.
  pose proof (X6_open_close_returns_parameters Sample.alpha
                (mkClick false true true) Sample.fresh eq_refl
                ltac:(cbn; lia)) as H.
  cbv zeta in H. destruct H as [_ [Hq [_ Hl]]].
  split; [exact Hq | exact Hl].
Defined.

(** ** The tool list of a card *)

Ltac by_cases_on_char c :=
  destruct c as [b0 b1 b2 b3 b4 b5 b6 b7];
  destruct b0, b1, b2, b3, b4, b5, b6, b7; vm_compute; reflexivity.

Lemma is_space_lower (c : ascii) : Js.is_space (Js.lower_char c) = Js.is_space c.
Proof. by_cases_on_char c. Qed.

Lemma comma_lower (c : ascii) : (Js.lower_char c =? ",")%char = (c =? ",")%char.
Proof. by_cases_on_char c. Qed.

Lemma lower_char_idem (c : ascii) :
  Js.lower_char (Js.lower_char c) = Js.lower_char c.
Proof. by_cases_on_char c. Qed.

Lemma toLowerCase_idem (s : string) :
  Js.toLowerCase (Js.toLowerCase s) = Js.toLowerCase s.
Proof.
  induction s as [|c r IH]; [reflexivity|].
  cbn [Js.toLowerCase]. now rewrite lower_char_idem, IH.
Qed.

Lemma toLowerCase_trimStart (s : string) :
  Js.trimStart (Js.toLowerCase s) = Js.toLowerCase (Js.trimStart s).
Proof.
  induction s as [|c r IH]; [reflexivity|].
  cbn [Js.toLowerCase Js.trimStart]. rewrite is_space_lower.
  destruct (Js.is_space c); [exact IH | reflexivity].
Qed.

Lemma toLowerCase_trimEnd (s : string) :
  Js.trimEnd (Js.toLowerCase s) = Js.toLowerCase (Js.trimEnd s).
Proof.
  induction s as [|c r IH]; [reflexivity|].
  cbn [Js.toLowerCase Js.trimEnd]. rewrite IH, is_space_lower.
  destruct (Js.trimEnd r) as [|c' r']; cbn [Js.toLowerCase].
  - now destruct (Js.is_space c).
  - reflexivity.
Qed.

Lemma toLowerCase_trim (s : string) :
  Js.trim (Js.toLowerCase s) = Js.toLowerCase (Js.trim s).
Proof. unfold Js.trim. now rewrite toLowerCase_trimStart, toLowerCase_trimEnd. Qed.

Lemma truthy_toLowerCase (s : string) :
  Js.truthy (Js.toLowerCase s) = Js.truthy s.
Proof. now destruct s. Qed.

Lemma split_comma_toLowerCase (s : string) :
  Js.split_comma (Js.toLowerCase s) = map Js.toLowerCase (Js.split_comma s).
Proof.
  induction s as [|c r IH]; [reflexivity|].
  cbn [Js.toLowerCase Js.split_comma]. rewrite comma_lower, IH.
  destruct (c =? ",")%char; [reflexivity|].
  now destruct (Js.split_comma r).
Qed.

Lemma parse_tools_toLowerCase (s : string) :
  parse_tools (Js.toLowerCase s) = map Js.toLowerCase (parse_tools s).
Proof.
  unfold parse_tools. rewrite split_comma_toLowerCase.
  induction (Js.split_comma s) as [|t r IH]; [reflexivity|].
  cbn [map filter]. rewrite toLowerCase_trim, truthy_toLowerCase.
  destruct (Js.truthy (Js.trim t)); cbn [map]; now rewrite IH.
Qed.

Lemma bubble_for_toLowerCase (k : string) :
  bubble_for (Js.toLowerCase k) = bubble_for k.
Proof. unfold bubble_for, normalizedKey. now rewrite toLowerCase_idem. Qed.

Lemma bubbles_of_toLowerCase (tools : list string) :
  bubbles_of (map Js.toLowerCase tools) = bubbles_of tools.
Proof.
  unfold bubbles_of. induction tools as [|k r IH]; [reflexivity|].
  cbn [map flat_map]. now rewrite bubble_for_toLowerCase, IH.
Qed.

Lemma badges_of_lowered (s : string) :
  bubbles_of (parse_tools (Js.toLowerCase s)) = bubbles_of (parse_tools s).
Proof. now rewrite parse_tools_toLowerCase, bubbles_of_toLowerCase. Qed.

(** X7.  The badges do not depend on the letter case of [data-tools]: two
    cards whose tool lists differ in case only get the same badges in the
    same order. *)
Theorem X7_tools_case_insensitive (c1 c2 : Card) (p1 p2 : bool) (w : World) :
  Js.toLowerCase (Js.or_else (data_tools c1) "")
  = Js.toLowerCase (Js.or_else (data_tools c2) "") ->
  modalFlags (openFromCard c1 p1 w) = modalFlags (openFromCard c2 p2 w).
Proof.
  intros H. cbn [openFromCard modalFlags]. rewrite !renderBubbles_spec.
  unfold card_tools.
  now rewrite <- (badges_of_lowered (Js.or_else (data_tools c1) "")), H,
              badges_of_lowered.
Qed.

(** X7 on two cards that list Photoshop and Figma in different case. *)
Lemma X7_tools_case_insensitive_witness :
  modalFlags (openFromCard (mkCard None None None None (Some "PS, Figma"))
                true Sample.fresh)
  = modalFlags (openFromCard (mkCard None None None None (Some "ps, FIGMA"))
                  false Sample.fresh).
Proof.
  apply (X7_tools_case_insensitive
           (mkCard None None None None (Some "PS, Figma"))
           (mkCard None None None None (Some "ps, FIGMA"))).
  reflexivity.
Defined.

Lemma trimStart_all_space (s : string) :
  all_space s = true -> Js.trimStart s = "".
Proof.
  induction s as [|c r IH]; [reflexivity|].
  cbn [all_space Js.trimStart]. intros H. apply andb_true_iff in H.
  destruct H as [Hc Hr]. rewrite Hc. now apply IH.
Qed.

Lemma trim_all_space (s : string) : all_space s = true -> Js.trim s = "".
Proof. intros H. unfold Js.trim. now rewrite (trimStart_all_space s H). Qed.

Lemma split_comma_blank (s : string) :
  blank_list s = true ->
  Forall (fun t => all_space t = true) (Js.split_comma s).
Proof.
  induction s as [|c r IH]; [repeat constructor|].
  cbn [blank_list Js.split_comma]. intros H. apply andb_true_iff in H.
  destruct H as [Hc Hr]. specialize (IH Hr).
  destruct (c =? ",")%char eqn:E.
  - constructor; [reflexivity | exact IH].
  - rewrite orb_false_r in Hc.
    inversion IH as [|h t Hh Ht Heq].
    + repeat constructor. cbn [all_space]. now rewrite Hc.
    + constructor; [|exact Ht]. cbn [all_space]. now rewrite Hc, Hh.
Qed.

Lemma parse_tools_blank (s : string) : blank_list s = true -> parse_tools s = [].
Proof.
  intros H. unfold parse_tools.
  induction (split_comma_blank s H) as [|t r Ht _ IH]; [reflexivity|].
  cbn [map filter]. now rewrite (trim_all_space t Ht).
Qed.

(** X8.  A card without [data-tools], or whose [data-tools] holds nothing
    but white space and commas, has no tools: opening it empties the badge
    container of whatever an earlier card left there. *)
Theorem X8_blank_tools_empty_container (card : Card) (push : bool) (w : World) :
  blank_list (Js.or_else (data_tools card) "") = true ->
  card_tools card = []
  /\ modalFlags (openFromCard card push w)
     = option_map (fun _ => []) (modalFlags w).
Proof.
  intros H.
  assert (Ht : card_tools card = []) by (apply parse_tools_blank; exact H).
  split; [exact Ht|].
  cbn [openFromCard modalFlags]. now rewrite renderBubbles_spec, Ht.
Qed.

(** X8 on a card with [data-tools=" , ,, "], opened after Alpha. *)
Lemma X8_blank_tools_empty_container_witness :
  modalFlags (openFromCard (mkCard (Some "z") None None None (Some " , ,, "))
                true (openFromCard Sample.alpha true Sample.fresh))
  = Some [].
Proof.
  apply (proj2 (X8_blank_tools_empty_container
                  (mkCard (Some "z") None None None (Some " , ,, ")) true
                  (openFromCard Sample.alpha true Sample.fresh) eq_refl)).
Defined.

Lemma length_split_comma (s : string) :
  List.length (Js.split_comma s) = S (count_commas s).
Proof.
  induction s as [|c r IH]; [reflexivity|].
  cbn [Js.split_comma count_commas].
  destruct (c =? ",")%char; cbn [List.length]; [now rewrite IH|].
  destruct (Js.split_comma r); cbn [List.length] in *; lia.
Qed.

Lemma length_bubbles_of (tools : list string) :
  List.length (bubbles_of tools) <= List.length tools.
Proof.
  unfold bubbles_of. induction tools as [|k r IH]; [reflexivity|].
  cbn [flat_map]. rewrite length_app.
  destruct (bubble_for k); cbn [List.length]; lia.
Qed.

(** X9.  Opening a card never renders more badges than its [data-tools]
    has comma-separated items: at most one more than the number of commas,
    and none without the attribute. *)
Theorem X9_badge_count_bound (card : Card) (push : bool) (w : World)
        (badges : list Bubble) :
  modalFlags (openFromCard card push w) = Some badges ->
  List.length badges <= List.length (card_tools card)
  /\ List.length (card_tools card)
     <= S (count_commas (Js.or_else (data_tools card) "")).
Proof.
  cbn [openFromCard modalFlags]. rewrite renderBubbles_spec.
  destruct (modalFlags w); [|discriminate].
  cbn [option_map]. intros H. injection H as <-.
  split; [apply length_bubbles_of|].
  unfold card_tools, parse_tools.
  rewrite <- length_split_comma.
  etransitivity; [apply filter_length_le | now rewrite length_map].
Qed.

(** X9 on the card Beta, which lists three items, two of them tools. *)
Lemma X9_badge_count_bound_witness :
  exists badges,
    modalFlags (openFromCard Sample.beta true Sample.fresh) = Some badges
    /\ List.length badges <= 3.
Proof.
  eexists. split; [reflexivity|].
  apply (Nat.le_trans _ _ _
           (proj1 (X9_badge_count_bound Sample.beta true Sample.fresh _ eq_refl))
           (proj2 (X9_badge_count_bound Sample.beta true Sample.fresh _ eq_refl))).
Defined.

(** * Properties of the rest of the page script *)

(** ** Navigation tabs *)

Lemma length_update {A : Type} (i : nat) (f : A -> A) (l : list A) :
  List.length (Nav.update i f l) = List.length l.
Proof.
  revert i. induction l as [|x r IH]; intros [|j]; cbn; try reflexivity.
  now rewrite IH.
Qed.

Lemma nth_error_update {A : Type} (i j : nat) (f : A -> A) (l : list A) :
  nth_error (Nav.update i f l) j
  = if (j =? i)%nat then option_map f (nth_error l j) else nth_error l j.
Proof.
  revert i j. induction l as [|x r IH]; intros i j.
  - cbn. destruct i, j; cbn; try reflexivity; now destruct (j =? i)%nat.
  - destruct i as [|i], j as [|j]; cbn; try reflexivity. apply IH.
Qed.

Lemma nav_click_state (env : Nav.Env) (c j : nat) (btns : list Nav.Btn) :
  nth_error (fst (Nav.handleNavClick env c btns)) j
  = option_map (fun b => if (j =? c)%nat then Nav.activate b else Nav.deactivate b)
               (nth_error btns j).
Proof.
  unfold Nav.handleNavClick. cbn [fst].
  rewrite nth_error_update, nth_error_map.
  destruct (j =? c)%nat; now destruct (nth_error btns j).
Qed.

Lemma nav_click_length (env : Nav.Env) (c : nat) (btns : list Nav.Btn) :
  List.length (fst (Nav.handleNavClick env c btns)) = List.length btns.
Proof.
  unfold Nav.handleNavClick. cbn [fst]. now rewrite length_update, length_map.
Qed.

Lemma nav_click_data_nav (env : Nav.Env) (c : nat) (btns : list Nav.Btn) :
  map Nav.data_nav (fst (Nav.handleNavClick env c btns)) = map Nav.data_nav btns.
Proof.
  unfold Nav.handleNavClick. cbn [fst]. revert c.
  induction btns as [|b r IH]; intros [|c]; cbn; try reflexivity.
  - f_equal. now rewrite map_map.
  - f_equal. apply IH.
Qed.

Lemma nav_clicks_frame (env : Nav.Env) (cs : list nat) (btns : list Nav.Btn) :
  List.length (Nav.clicks env cs btns) = List.length btns
  /\ map Nav.data_nav (Nav.clicks env cs btns) = map Nav.data_nav btns.
Proof.
  revert btns. induction cs as [|c r IH]; intros btns; [now split|].
  change (Nav.clicks env (c :: r) btns)
    with (Nav.clicks env r (fst (Nav.handleNavClick env c btns))).
  destruct (IH (fst (Nav.handleNavClick env c btns))) as [Hl Hn].
  rewrite Hl, Hn. split; [apply nav_click_length | apply nav_click_data_nav].
Qed.

Lemma no_active_after_deactivate (btns : list Nav.Btn) :
  List.length (filter Nav.is_active (map Nav.deactivate btns)) = 0.
Proof. induction btns as [|b r IH]; [reflexivity | exact IH]. Qed.

(** X10.  After any series of clicks on a navigation bar, the button
    clicked last is the one and only button with [data-active="true"] and
    [aria-current="page"]; every other button has [data-active="false"] and
    no [aria-current]; the bar keeps its buttons and their [data-nav]. *)
Theorem X10_last_clicked_tab_is_active (env : Nav.Env) (cs : list nat) (c : nat)
        (btns : list Nav.Btn) :
  c < List.length btns ->
  let after := Nav.clicks env (cs ++ [c]) btns in
  List.length after = List.length btns
  /\ map Nav.data_nav after = map Nav.data_nav btns
  /\ (forall j, j < List.length btns ->
        exists b, nth_error after j = Some b
                  /\ Nav.data_active b = Some (if (j =? c)%nat then "true" else "false")
                  /\ Nav.aria_current b = (if (j =? c)%nat then Some "page" else None))
  /\ List.length (filter Nav.is_active after) = 1.
Proof.
  intros Hc after.
  destruct (nav_clicks_frame env (cs ++ [c]) btns) as [Hl Hn].
  split; [exact Hl|]. split; [exact Hn|].
  assert (Hafter : after = fst (Nav.handleNavClick env c (Nav.clicks env cs btns))).
  { unfold after, Nav.clicks. now rewrite fold_left_app. }
  destruct (nav_clicks_frame env cs btns) as [Hl0 _].
  set (prev := Nav.clicks env cs btns) in *.
  assert (Hstate : forall j, j < List.length btns ->
        exists b, nth_error after j = Some b
                  /\ Nav.data_active b = Some (if (j =? c)%nat then "true" else "false")
                  /\ Nav.aria_current b = (if (j =? c)%nat then Some "page" else None)).
  { intros j Hj. rewrite Hafter, nav_click_state.
    destruct (nth_error prev j) as [b|] eqn:E.
    - cbn [option_map]. eexists. split; [reflexivity|].
      destruct (j =? c)%nat; split; reflexivity.
    - apply nth_error_None in E. lia. }
  split; [exact Hstate|].
  rewrite Hafter. unfold Nav.handleNavClick. cbn [fst].
  rewrite <- Hl0 in Hc. clear -Hc. revert c Hc.
  induction prev as [|b r IH]; intros c Hc; [cbn in Hc; lia|].
  destruct c as [|c]; cbn [map Nav.update filter].
  - cbn. f_equal. apply no_active_after_deactivate.
  - cbn. apply IH. cbn in Hc. lia.
Qed.

(** X10 on a bar of three buttons: contact, then home, then about. *)
Lemma X10_last_clicked_tab_is_active_witness :
  List.length
    (filter Nav.is_active
       (Nav.clicks (Nav.mkEnv true false) [2; 0; 1]
          [Nav.mkBtn (Some "true") (Some "page") (Some "home");
           Nav.mkBtn None None (Some "about");
           Nav.mkBtn (Some "true") None (Some "contact")]))
  = 1.
Proof.
  apply (X10_last_clicked_tab_is_active (Nav.mkEnv true false) [2; 0] 1
           [Nav.mkBtn (Some "true") (Some "page") (Some "home");
            Nav.mkBtn None None (Some "about");
            Nav.mkBtn (Some "true") None (Some "contact")]).
  cbn. lia.
Defined.

(** ** Category chips and the card grid *)

Lemma prefix_app (sub s : string) :
  String.prefix sub s = true <-> exists y, s = (sub ++ y)%string.
Proof.
  revert s. induction sub as [|c r IH]; intros s.
  - cbn. split; [intros _; now exists s | destruct s; reflexivity].
  - destruct s as [|d t]; cbn.
    + split; [discriminate | intros [y H]; discriminate].
    + destruct (Ascii.ascii_dec c d) as [->|Hne].
      * rewrite IH. split; intros [y H]; exists y; [now rewrite H|].
        now injection H.
      * split; [discriminate|]. intros [y H]. injection H as H _. congruence.
Qed.

(** [includes] is substring search. *)
Lemma includes_iff (s sub : string) :
  Text.includes s sub = true <-> exists x y, s = (x ++ sub ++ y)%string.
Proof.
  induction s as [|c r IH].
  - cbn [Text.includes]. destruct (String.prefix sub "") eqn:E.
    + apply prefix_app in E. destruct E as [y E].
      split; [intros _; now exists "", y | reflexivity].
    + split; [discriminate|]. intros [x [y H]].
      destruct x as [|a x]; [|discriminate].
      assert (Hp : String.prefix sub "" = true) by (apply prefix_app; now exists y).
      congruence.
  - cbn [Text.includes]. destruct (String.prefix sub (String c r)) eqn:E.
    + apply prefix_app in E. destruct E as [y E].
      split; [intros _; now exists "", y | reflexivity].
    + rewrite IH. split.
      * intros [x [y H]]. exists (String c x), y. cbn. now rewrite H.
      * intros [x [y H]]. destruct x as [|a x].
        -- assert (Hp : String.prefix sub (String c r) = true)
             by (apply prefix_app; now exists y).
           congruence.
        -- cbn in H. injection H as _ H. now exists x, y.
Qed.

Lemma nth_error_filterCards (cards : list Grid.CardView) (category : option string)
      (i : nat) :
  nth_error (Grid.filterCards cards category) i
  = option_map
      (fun card => Grid.applyFirstFlagOnly_card
                     (if Grid.selected category card then Grid.showCard card
                      else Grid.hideCard card))
      (nth_error cards i).
Proof.
  unfold Grid.filterCards, Grid.applyFirstFlagOnly.
  rewrite !nth_error_map. now destruct (nth_error cards i).
Qed.

(** X11.  With no callback waiting on a card, one run of [filterCards]
    leaves exactly one callback waiting on it, and once that has run the
    card is fully shown (no [hidden] class, no inline display, opacity 1,
    scale 1) if the category is [all] or occurs in its non-empty
    [data-cats], and fully hidden (class [hidden], display none, opacity 0,
    scale 0.95) otherwise: what the card looked like before leaves no
    trace. *)
Theorem X11_filter_settles (cards : list Grid.CardView) (category : option string)
        (i : nat) (card : Grid.CardView) :
  nth_error cards i = Some card -> Grid.settled card ->
  exists card',
    nth_error (Grid.filterCards cards category) i = Some card'
    /\ Grid.data_cats card' = Grid.data_cats card
    /\ List.length (Grid.pending card') = 1
    /\ let final := Grid.fire_all (Grid.pending card') card' in
       Grid.settled final
       /\ if Grid.selected category card
          then Grid.class_hidden final = false /\ Grid.display final = ""
               /\ Grid.opacity final = "1" /\ Grid.transform final = "scale(1)"
          else Grid.class_hidden final = true /\ Grid.display final = "none"
               /\ Grid.opacity final = "0" /\ Grid.transform final = "scale(0.95)".
Proof.
  intros Hn Hs. rewrite nth_error_filterCards, Hn. cbn [option_map].
  eexists. split; [reflexivity|].
  unfold Grid.settled in Hs.
  destruct (Grid.selected category card);
    cbn; rewrite Hs; cbn; repeat split.
Qed.

(** X11 on a card tagged [3d,web], filtered by [web]. *)
Lemma X11_filter_settles_witness :
  exists card',
    nth_error (Grid.filterCards
                 [Grid.mkView (Some "3d,web") true "none" "0" "scale(0.95)" [] []]
                 (Some "web")) 0 = Some card'
    /\ Grid.display (Grid.fire_all (Grid.pending card') card') = "".
Proof.
  destruct (X11_filter_settles
              [Grid.mkView (Some "3d,web") true "none" "0" "scale(0.95)" [] []]
              (Some "web") 0 _ eq_refl eq_refl)
    as [card' [Hn [_ [_ H]]]].
  exists card'. split; [exact Hn|].
  cbv zeta in H. destruct H as [_ H]. cbn in H. tauto.
Defined.

Lemma run_callback_comm (card : Grid.CardView) (a b : Grid.Callback) :
  Grid.run_callback (Grid.run_callback card a) b
  = Grid.run_callback (Grid.run_callback card b) a.
Proof. destruct a, b; reflexivity. Qed.

(** The callbacks of a card write different properties, so the order in
    which the waiting ones run does not matter. *)
Lemma fire_all_any_order (o1 o2 : list Grid.Callback) (card : Grid.CardView) :
  Permutation o1 o2 -> Grid.fire_all o1 card = Grid.fire_all o2 card.
Proof.
  intros H. unfold Grid.fire_all.
  assert (Hf : fold_left Grid.run_callback o1 card
               = fold_left Grid.run_callback o2 card).
  { revert card. induction H; intros card; cbn [fold_left].
    - reflexivity.
    - apply IHPermutation.
    - now rewrite run_callback_comm.
    - now rewrite IHPermutation1, IHPermutation2. }
  now rewrite Hf.
Qed.

(** X12.  A hide that is still waiting wins over a later show.  When a
    filter that leaves a card out is followed, before the card's 200 ms
    timer has run, by a filter that selects it, then after the waiting
    callbacks have run, in whatever order, the card has [display: none] and
    the class [hidden], at opacity 1: it is selected and not displayed. *)
Theorem X12_waiting_hide_overrides_show (cards : list Grid.CardView)
        (cat1 cat2 : option string) (i : nat) (card : Grid.CardView) :
  nth_error cards i = Some card -> Grid.settled card ->
  Grid.selected cat1 card = false -> Grid.selected cat2 card = true ->
  exists card2,
    nth_error (Grid.filterCards (Grid.filterCards cards cat1) cat2) i = Some card2
    /\ Grid.selected cat2 card2 = true
    /\ forall order, Permutation order (Grid.pending card2) ->
         let final := Grid.fire_all order card2 in
         Grid.display final = "none" /\ Grid.class_hidden final = true
         /\ Grid.opacity final = "1" /\ Grid.settled final.
Proof.
  intros Hn Hs H1 H2.
  rewrite nth_error_filterCards, nth_error_filterCards, Hn. cbn [option_map].
  rewrite H1.
  assert (Hsel : Grid.selected cat2
                   (Grid.applyFirstFlagOnly_card (Grid.hideCard card)) = true)
    by exact H2.
  rewrite Hsel. eexists. split; [reflexivity|]. split; [exact H2|].
  intros order Hp. cbv zeta.
  rewrite (fire_all_any_order _ _ _ Hp).
  unfold Grid.settled in Hs. cbn. rewrite Hs. cbn. repeat split.
Qed.

(** X12 on a card tagged [web]: the chip [3d], then the chip [all]. *)
Lemma X12_waiting_hide_overrides_show_witness :
  exists card2,
    nth_error (Grid.filterCards
                 (Grid.filterCards [Grid.mkView (Some "web") false "" "" "" [] []]
                                   (Some "3d"))
                 (Some "all")) 0 = Some card2
    /\ Grid.display (Grid.fire_all [Grid.ShowFrame; Grid.HideTimeout] card2)
       = "none".
Proof.
  destruct (X12_waiting_hide_overrides_show
              [Grid.mkView (Some "web") false "" "" "" [] []]
              (Some "3d") (Some "all") 0 _ eq_refl eq_refl eq_refl eq_refl)
    as [card2 [Hn [_ H]]].
  exists card2. split; [exact Hn|].
  assert (Hp : Permutation [Grid.ShowFrame; Grid.HideTimeout] (Grid.pending card2)).
  { cbn in Hn. injection Hn as <-. cbn. apply perm_swap. }
  exact (proj1 (H _ Hp)).
Defined.

(** X13.  A category other than [all] selects a card exactly when the
    card has a non-empty [data-cats] in which the category occurs as a
    substring: the test does not look at the separators of the list, so
    [art] also selects a card tagged [cartoon], and the empty category
    selects every card with a non-empty [data-cats]. *)
Theorem X13_filter_is_substring_match (category : string) (card : Grid.CardView) :
  category <> "all" ->
  (Grid.selected (Some category) card = true
   <-> exists cats x y,
         Grid.data_cats card = Some cats /\ cats <> ""
         /\ cats = (x ++ category ++ y)%string).
Proof.
  intros Hne.
  assert (Hsel : Grid.selected (Some category) card
                 = match Grid.data_cats card with
                   | Some cats => Js.truthy cats && Text.includes cats category
                   | None => false
                   end).
  { unfold Grid.selected, Text.search_string.
    apply String.eqb_neq in Hne. now rewrite Hne. }
  rewrite Hsel. destruct (Grid.data_cats card) as [cats|].
  - rewrite andb_true_iff, truthy_iff, includes_iff. split.
    + intros [Hc [x [y H]]]. now exists cats, x, y.
    + intros [cats' [x [y [Heq [Hc H]]]]]. injection Heq as <-.
      split; [exact Hc | now exists x, y].
  - split; [discriminate|]. intros [cats [x [y [H _]]]]. discriminate.
Qed.

(** X13 on a card tagged [cartoon,3d] and the chip [art]. *)
Lemma X13_filter_is_substring_match_witness :
  Grid.selected (Some "art")
    (Grid.mkView (Some "cartoon,3d") false "" "" "" [] []) = true.
Proof.
  apply (proj2 (X13_filter_is_substring_match "art"
                  (Grid.mkView (Some "cartoon,3d") false "" "" "" [] [])
                  ltac:(discriminate))).
  exists "cartoon,3d", "c", "oon,3d". repeat split. discriminate.
Defined.

(** ** Class tokens *)

Lemma mem_In (t : string) (l : list string) : Text.mem t l = true <-> In t l.
Proof.
  unfold Text.mem. rewrite existsb_exists. split.
  - intros [x [Hin Hx]]. apply String.eqb_eq in Hx. now subst.
  - intros H. exists t. split; [exact H | apply String.eqb_refl].
Qed.

Lemma mem_not_In (t : string) (l : list string) :
  Text.mem t l = false <-> ~ In t l.
Proof.
  rewrite <- mem_In. destruct (Text.mem t l); split; congruence.
Qed.

Lemma split_on_pieces (s : string) :
  Forall (fun t => no_space t = true) (Text.split_on Text.is_ascii_space s).
Proof.
  induction s as [|c r IH]; [repeat constructor|].
  cbn [Text.split_on]. destruct (Text.is_ascii_space c) eqn:E.
  - constructor; [reflexivity | exact IH].
  - inversion IH as [|h t Hh Ht Heq].
    + repeat constructor. cbn [no_space]. now rewrite E.
    + constructor; [|exact Ht]. cbn [no_space]. now rewrite E, Hh.
Qed.

Lemma ordered_set_spec (l seen : list string) :
  NoDup (Text.ordered_set seen l)
  /\ forall t, In t (Text.ordered_set seen l) -> In t l /\ ~ In t seen.
Proof.
  revert seen. induction l as [|x r IH]; intros seen.
  - cbn. split; [constructor | tauto].
  - cbn [Text.ordered_set]. destruct (Text.mem x seen) eqn:E.
    + destruct (IH seen) as [Hn Hs]. split; [exact Hn|].
      intros t Ht. destruct (Hs t Ht). split; [now right | assumption].
    + destruct (IH (seen ++ [x])) as [Hn Hs].
      apply mem_not_In in E. split.
      * constructor; [|exact Hn]. intros Hx. destruct (Hs x Hx) as [_ Hc].
        apply Hc, in_or_app. right. now left.
      * intros t [<-|Ht]; [split; [now left | exact E]|].
        destruct (Hs t Ht) as [H1 H2]. split; [now right|].
        intros Hc. apply H2, in_or_app. now left.
Qed.

Lemma tokens_token_set (s : string) : token_set (Text.tokens s).
Proof.
  unfold Text.tokens.
  destruct (ordered_set_spec
              (filter Js.truthy (Text.split_on Text.is_ascii_space s)) [])
    as [Hn Hs].
  split; [|exact Hn].
  apply Forall_forall. intros t Ht. destruct (Hs t Ht) as [Hin _].
  apply filter_In in Hin. destruct Hin as [Hin Htr].
  split; [now apply truthy_iff|].
  pose proof (split_on_pieces s) as Hp. rewrite Forall_forall in Hp.
  now apply Hp.
Qed.

Lemma split_on_token (t : string) :
  no_space t = true -> Text.split_on Text.is_ascii_space t = [t].
Proof.
  induction t as [|c r IH]; [reflexivity|].
  cbn [no_space Text.split_on]. intros H. apply andb_true_iff in H.
  destruct H as [Hc Hr]. apply negb_true_iff in Hc. now rewrite Hc, (IH Hr).
Qed.

Lemma split_on_token_space (t r : string) :
  no_space t = true ->
  Text.split_on Text.is_ascii_space (t ++ String " " r)
  = t :: Text.split_on Text.is_ascii_space r.
Proof.
  induction t as [|c u IH]; [reflexivity|].
  cbn [no_space]. intros H. apply andb_true_iff in H.
  destruct H as [Hc Hr]. apply negb_true_iff in Hc.
  cbn [append Text.split_on]. now rewrite Hc, (IH Hr).
Qed.

Lemma split_on_serialize (l : list string) :
  Forall token l -> l <> [] ->
  Text.split_on Text.is_ascii_space (Text.serialize l) = l.
Proof.
  unfold Text.serialize.
  induction l as [|t r IH]; [congruence|]. intros Hf _.
  inversion Hf as [|t' r' [_ Ht] Hr]; subst.
  destruct r as [|u r].
  - cbn [String.concat]. now apply split_on_token.
  - change (String.concat " " (t :: u :: r))
      with (t ++ String " " (String.concat " " (u :: r)))%string.
    rewrite (split_on_token_space _ _ Ht). f_equal.
    apply IH; [exact Hr | discriminate].
Qed.

Lemma filter_truthy_tokens (l : list string) :
  Forall token l -> filter Js.truthy l = l.
Proof.
  induction 1 as [|t r [Ht _] _ IH]; [reflexivity|].
  cbn [filter]. apply truthy_iff in Ht. now rewrite Ht, IH.
Qed.

Lemma ordered_set_id (l seen : list string) :
  NoDup l -> (forall t, In t l -> ~ In t seen) -> Text.ordered_set seen l = l.
Proof.
  revert seen. induction l as [|x r IH]; intros seen Hn Hd; [reflexivity|].
  cbn [Text.ordered_set].
  assert (E : Text.mem x seen = false) by (apply mem_not_In, Hd; now left).
  rewrite E. f_equal. inversion Hn as [|x' r' Hx Hr]; subst.
  apply IH; [exact Hr|].
  intros t Ht Hc. apply in_app_or in Hc. destruct Hc as [Hc|[<-|[]]].
  - apply (Hd t); [now right | exact Hc].
  - exact (Hx Ht).
Qed.

(** Reading back what the DOM wrote gives the same token set. *)
Lemma tokens_serialize (l : list string) :
  token_set l -> Text.tokens (Text.serialize l) = l.
Proof.
  intros [Hf Hn]. unfold Text.tokens. destruct l as [|t r]; [reflexivity|].
  rewrite (split_on_serialize _ Hf) by discriminate.
  rewrite (filter_truthy_tokens _ Hf).
  apply ordered_set_id; [exact Hn | intros ? _ []].
Qed.

Lemma attr_tokens_token_set (a : option string) : token_set (Text.attr_tokens a).
Proof.
  destruct a as [s|]; [apply tokens_token_set|].
  split; constructor.
Qed.

Lemma token_set_filter (f : string -> bool) (l : list string) :
  token_set l -> token_set (filter f l).
Proof.
  intros [Hf Hn]. split; [|now apply NoDup_filter].
  apply Forall_forall. intros t Ht. apply filter_In in Ht.
  rewrite Forall_forall in Hf. now apply Hf.
Qed.

Lemma token_set_add (t : string) (l : list string) :
  token t -> token_set l -> ~ In t l -> token_set (l ++ [t]).
Proof.
  intros Ht [Hf Hn] Hni. split.
  - apply Forall_app. split; [exact Hf | constructor; [exact Ht | constructor]].
  - apply NoDup_app; [exact Hn | repeat constructor; intros [] | ].
    intros a Ha [<-|[]]. exact (Hni Ha).
Qed.

Lemma has_token_after_add (t : string) (a : option string) :
  token t -> Text.has_token t (Text.classList_add t a) = true.
Proof.
  intros Ht. unfold Text.has_token, Text.classList_add.
  pose proof (attr_tokens_token_set a) as Hs.
  cbn [Text.attr_tokens].
  destruct (Text.mem t (Text.attr_tokens a)) eqn:E.
  - now rewrite (tokens_serialize _ Hs).
  - apply mem_not_In in E.
    rewrite (tokens_serialize _ (token_set_add _ _ Ht Hs E)).
    apply mem_In, in_or_app. right. now left.
Qed.

Lemma has_token_after_remove (t : string) (a : option string) :
  Text.has_token t (Text.classList_remove t a) = false.
Proof.
  unfold Text.has_token, Text.classList_remove.
  pose proof (token_set_filter (fun x => negb (x =? t)) _
                (attr_tokens_token_set a)) as Hs.
  assert (Hno : Text.mem t (filter (fun x => negb (x =? t)) (Text.attr_tokens a))
                = false).
  { apply mem_not_In. intros H. apply filter_In in H. destruct H as [_ H].
    now rewrite String.eqb_refl in H. }
  destruct a as [s|].
  - cbn [Text.attr_tokens] in *. now rewrite (tokens_serialize _ Hs).
  - reflexivity.
Qed.

(** ** The first-flag rule *)

Lemma flag_hidden_token : token "flag-hidden".
Proof. split; [discriminate | reflexivity]. Qed.

Lemma hide_flag_marks (e : Grid.El) :
  Text.has_token "flag-hidden" (Grid.class_attr (Grid.hide_flag e)) = true.
Proof. apply has_token_after_add, flag_hidden_token. Qed.

Lemma show_flag_unmarks (e : Grid.El) :
  Text.has_token "flag-hidden" (Grid.class_attr (Grid.show_flag e)) = false.
Proof. apply has_token_after_remove. Qed.

Lemma mark_flags_nth (els : list Grid.El) (later : bool) (i : nat) (e : Grid.El) :
  nth_error els i = Some e ->
  nth_error (Grid.mark_flags later els) i
  = Some (if Grid.is_flag e
          then if later || existsb Grid.is_flag (firstn i els)
               then Grid.hide_flag e else Grid.show_flag e
          else e).
Proof.
  revert later i. induction els as [|x r IH]; intros later i H.
  - destruct i; discriminate.
  - destruct i as [|i].
    + injection H as ->. cbn [Grid.mark_flags firstn existsb].
      rewrite orb_false_r. now destruct (Grid.is_flag e).
    + cbn [nth_error] in H. cbn [Grid.mark_flags firstn existsb].
      destruct (Grid.is_flag x); cbn [nth_error]; rewrite (IH _ _ H).
      * now rewrite orb_true_r.
      * reflexivity.
Qed.

Lemma length_mark_flags (els : list Grid.El) (later : bool) :
  List.length (Grid.mark_flags later els) = List.length els.
Proof.
  revert later. induction els as [|x r IH]; intros later; [reflexivity|].
  cbn [Grid.mark_flags]. destruct (Grid.is_flag x); cbn [List.length];
    now rewrite IH.
Qed.

(** X14.  [applyFirstFlagOnly] leaves, in every card, the first
    descendant that matches the flag selector without the class token
    [flag-hidden], without [aria-hidden] and with [tabindex="0"]; it gives
    every later match the token [flag-hidden], [aria-hidden="true"] and
    [tabindex="-1"]; it leaves every other descendant as it was. *)
Theorem X14_first_flag_shown_rest_hidden (card : Grid.CardView) (i : nat)
        (e : Grid.El) :
  nth_error (Grid.inner card) i = Some e ->
  exists e',
    nth_error (Grid.inner (Grid.applyFirstFlagOnly_card card)) i = Some e'
    /\ (Grid.is_flag e = false -> e' = e)
    /\ (Grid.is_flag e = true ->
        existsb Grid.is_flag (firstn i (Grid.inner card)) = false ->
        Text.has_token "flag-hidden" (Grid.class_attr e') = false
        /\ Grid.el_aria_hidden e' = None /\ Grid.tabindex e' = Some "0")
    /\ (Grid.is_flag e = true ->
        existsb Grid.is_flag (firstn i (Grid.inner card)) = true ->
        Text.has_token "flag-hidden" (Grid.class_attr e') = true
        /\ Grid.el_aria_hidden e' = Some "true"
        /\ Grid.tabindex e' = Some "-1").
Proof.
  intros H. cbn [Grid.applyFirstFlagOnly_card Grid.inner].
  rewrite (mark_flags_nth _ false _ _ H). cbn [orb].
  eexists. split; [reflexivity|]. split; [|split].
  - intros Hf. now rewrite Hf.
  - intros Hf Hb. rewrite Hf, Hb.
    split; [apply show_flag_unmarks | split; reflexivity].
  - intros Hf Hb. rewrite Hf, Hb.
    split; [apply hide_flag_marks | split; reflexivity].
Qed.

(** X14 on a card with a title and two flags, the first marked hidden in
    the markup: the second flag gets hidden, the first is brought back. *)
Lemma X14_first_flag_shown_rest_hidden_witness :
  exists e1 e2,
    nth_error
      (Grid.inner
         (Grid.applyFirstFlagOnly_card
            (Grid.mkView None false "" "" "" []
               [Grid.mkEl (Some "title") None None;
                Grid.mkEl (Some "flag-PS flag-hidden") (Some "true") (Some "-1");
                Grid.mkEl (Some "badge flag-AI") None None]))) 1 = Some e1
    /\ Text.has_token "flag-hidden" (Grid.class_attr e1) = false
    /\ nth_error
         (Grid.inner
            (Grid.applyFirstFlagOnly_card
               (Grid.mkView None false "" "" "" []
                  [Grid.mkEl (Some "title") None None;
                   Grid.mkEl (Some "flag-PS flag-hidden") (Some "true") (Some "-1");
                   Grid.mkEl (Some "badge flag-AI") None None]))) 2 = Some e2
    /\ Text.has_token "flag-hidden" (Grid.class_attr e2) = true.
Proof.
  destruct (X14_first_flag_shown_rest_hidden
              (Grid.mkView None false "" "" "" []
                 [Grid.mkEl (Some "title") None None;
                  Grid.mkEl (Some "flag-PS flag-hidden") (Some "true") (Some "-1");
                  Grid.mkEl (Some "badge flag-AI") None None])
              1 _ eq_refl) as [e1 [H1 [_ [F1 _]]]].
  destruct (X14_first_flag_shown_rest_hidden
              (Grid.mkView None false "" "" "" []
                 [Grid.mkEl (Some "title") None None;
                  Grid.mkEl (Some "flag-PS flag-hidden") (Some "true") (Some "-1");
                  Grid.mkEl (Some "badge flag-AI") None None])
              2 _ eq_refl) as [e2 [H2 [_ [_ F2]]]].
  exists e1, e2. split; [exact H1|].
  split; [exact (proj1 (F1 eq_refl eq_refl))|].
  split; [exact H2 | exact (proj1 (F2 eq_refl eq_refl))].
Defined.

Lemma visible_after_mark (els : list Grid.El) (later : bool) :
  List.length
    (filter (fun e => Grid.is_flag e
                      && negb (Text.has_token "flag-hidden" (Grid.class_attr e)))
            (Grid.mark_flags later els))
  <= if later then 0 else 1.
Proof.
  revert later. induction els as [|x r IH]; intros later.
  - cbn. destruct later; lia.
  - cbn [Grid.mark_flags]. destruct (Grid.is_flag x) eqn:Ex.
    + specialize (IH true). cbv iota in IH. cbn [filter]. destruct later.
      * rewrite hide_flag_marks, andb_false_r. exact IH.
      * destruct (Grid.is_flag (Grid.show_flag x)
                  && negb (Text.has_token "flag-hidden"
                             (Grid.class_attr (Grid.show_flag x))));
          cbn [List.length]; lia.
    + cbn [filter]. rewrite Ex. cbn [andb]. apply IH.
Qed.

(** X15.  After [applyFirstFlagOnly], and so after every [filterCards],
    no card has more than one flag without the token [flag-hidden]. *)
Theorem X15_at_most_one_visible_flag (cards : list Grid.CardView)
        (category : option string) (card : Grid.CardView) :
  (In card (Grid.applyFirstFlagOnly cards)
   \/ In card (Grid.filterCards cards category)) ->
  List.length (Grid.visible_flags card) <= 1.
Proof.
  assert (H : forall cs, In card (Grid.applyFirstFlagOnly cs) ->
                         List.length (Grid.visible_flags card) <= 1).
  { intros cs Hin. unfold Grid.applyFirstFlagOnly in Hin.
    apply in_map_iff in Hin. destruct Hin as [c [<- _]].
    unfold Grid.visible_flags. cbn [Grid.applyFirstFlagOnly_card Grid.inner].
    apply (visible_after_mark (Grid.inner c) false). }
  intros [Hin|Hin]; [exact (H _ Hin)|].
  unfold Grid.filterCards in Hin. exact (H _ Hin).
Qed.

(** X15 on a card with three flags. *)
Lemma X15_at_most_one_visible_flag_witness :
  List.length
    (Grid.visible_flags
       (Grid.applyFirstFlagOnly_card
          (Grid.mkView None false "" "" "" []
             [Grid.mkEl (Some "flag-PS") None None;
              Grid.mkEl (Some "flag-AI") None None;
              Grid.mkEl (Some "x flag-PR") None None]))) <= 1.
Proof.
  apply (X15_at_most_one_visible_flag
           [Grid.mkView None false "" "" "" []
              [Grid.mkEl (Some "flag-PS") None None;
               Grid.mkEl (Some "flag-AI") None None;
               Grid.mkEl (Some "x flag-PR") None None]] None).
  left. left. reflexivity.
Defined.

(** ** Applying the first-flag rule again *)

Lemma string_app_assoc (a b c : string) :
  ((a ++ b) ++ c = a ++ (b ++ c))%string.
Proof. induction a as [|x a IH]; [reflexivity|]. cbn. now rewrite IH. Qed.

(** A serialised token set matches the flag selector as soon as one of its
    tokens starts with [flag-]. *)
Lemma serialize_matches_selector (l : list string) (t : string) :
  In t l -> String.prefix "flag-" t = true ->
  String.prefix "flag-" (Text.serialize l)
  || Text.includes (Text.serialize l) " flag-" = true.
Proof.
  intros Hin Hp. unfold Text.serialize.
  induction l as [|t0 r IH]; [destruct Hin|].
  destruct r as [|u r].
  - destruct Hin as [->|[]]. cbn [String.concat]. now rewrite Hp.
  - change (String.concat " " (t0 :: u :: r))
      with (t0 ++ String " " (String.concat " " (u :: r)))%string.
    destruct Hin as [->|Hin].
    + apply orb_true_iff. left. apply prefix_app in Hp. destruct Hp as [y ->].
      apply prefix_app. eexists. apply string_app_assoc.
    + specialize (IH Hin). apply orb_true_iff in IH. apply orb_true_iff. right.
      apply includes_iff. destruct IH as [IH|IH].
      * apply prefix_app in IH. destruct IH as [y ->]. now exists t0, y.
      * apply includes_iff in IH. destruct IH as [x [y ->]].
        exists (t0 ++ String " " x)%string, y.
        now rewrite string_app_assoc.
Qed.

Lemma classList_remove_present (t s : string) :
  Text.classList_remove t (Some s)
  = Some (Text.serialize (filter (fun x => negb (x =? t)) (Text.tokens s))).
Proof.
  unfold Text.classList_remove. cbn [Text.attr_tokens].
  now destruct (filter (fun x => negb (x =? t)) (Text.tokens s)).
Qed.

Lemma hide_flag_stays_flag (e : Grid.El) : Grid.is_flag (Grid.hide_flag e) = true.
Proof.
  unfold Grid.is_flag, Grid.hide_flag, Text.classList_add.
  cbn [Grid.class_attr].
  apply (serialize_matches_selector _ "flag-hidden"); [|reflexivity].
  destruct (Text.mem "flag-hidden" (Text.attr_tokens (Grid.class_attr e))) eqn:E.
  - now apply mem_In.
  - apply in_or_app. right. now left.
Qed.

Lemma show_flag_stays_flag (e : Grid.El) :
  has_own_flag_class e = true -> Grid.is_flag (Grid.show_flag e) = true.
Proof.
  unfold has_own_flag_class. intros H. apply existsb_exists in H.
  destruct H as [t [Hin Ht]]. apply andb_true_iff in Ht. destruct Ht as [Hp Hne].
  assert (Hf : In t (filter (fun x => negb (x =? "flag-hidden"))
                            (Text.attr_tokens (Grid.class_attr e))))
    by (apply filter_In; now split).
  unfold Grid.is_flag, Grid.show_flag.
  cbn [Grid.class_attr].
  destruct (Grid.class_attr e) as [s|]; [|destruct Hin].
  rewrite classList_remove_present.
  now apply (serialize_matches_selector _ t).
Qed.

Lemma filter_idem {A : Type} (f : A -> bool) (l : list A) :
  filter f (filter f l) = filter f l.
Proof.
  induction l as [|x r IH]; [reflexivity|].
  cbn [filter]. destruct (f x) eqn:E; [|exact IH].
  cbn [filter]. now rewrite E, IH.
Qed.

Lemma classList_add_idem (t : string) (a : option string) :
  token t ->
  Text.classList_add t (Text.classList_add t a) = Text.classList_add t a.
Proof.
  intros Ht.
  pose proof (has_token_after_add t a Ht) as Hm.
  unfold Text.has_token in Hm.
  unfold Text.classList_add at 1. rewrite Hm.
  unfold Text.classList_add. cbn [Text.attr_tokens]. f_equal. f_equal.
  pose proof (attr_tokens_token_set a) as Hs.
  destruct (Text.mem t (Text.attr_tokens a)) eqn:E.
  - now apply tokens_serialize.
  - apply tokens_serialize, token_set_add; [exact Ht | exact Hs|].
    now apply mem_not_In.
Qed.

Lemma classList_remove_idem (t : string) (a : option string) :
  Text.classList_remove t (Text.classList_remove t a) = Text.classList_remove t a.
Proof.
  pose proof (token_set_filter (fun x => negb (x =? t)) _
                (attr_tokens_token_set a)) as Hs.
  destruct a as [s|]; [|reflexivity].
  cbn [Text.attr_tokens] in Hs.
  rewrite !classList_remove_present.
  now rewrite (tokens_serialize _ Hs), filter_idem.
Qed.

Lemma hide_flag_idem (e : Grid.El) :
  Grid.hide_flag (Grid.hide_flag e) = Grid.hide_flag e.
Proof.
  unfold Grid.hide_flag. cbn [Grid.class_attr].
  now rewrite (classList_add_idem _ _ flag_hidden_token).
Qed.

Lemma show_flag_idem (e : Grid.El) :
  Grid.show_flag (Grid.show_flag e) = Grid.show_flag e.
Proof.
  unfold Grid.show_flag. cbn [Grid.class_attr].
  now rewrite classList_remove_idem.
Qed.

Lemma mark_flags_later_idem (els : list Grid.El) :
  Grid.mark_flags true (Grid.mark_flags true els) = Grid.mark_flags true els.
Proof.
  induction els as [|e r IH]; [reflexivity|].
  cbn [Grid.mark_flags]. destruct (Grid.is_flag e) eqn:E; cbn [Grid.mark_flags].
  - now rewrite hide_flag_stays_flag, hide_flag_idem, IH.
  - now rewrite E, IH.
Qed.

Lemma mark_flags_idem (els : list Grid.El) :
  match find Grid.is_flag els with
  | Some e => has_own_flag_class e = true
  | None => True
  end ->
  Grid.mark_flags false (Grid.mark_flags false els) = Grid.mark_flags false els.
Proof.
  induction els as [|e r IH]; [reflexivity|].
  cbn [find Grid.mark_flags]. destruct (Grid.is_flag e) eqn:E; intros H;
    cbn [Grid.mark_flags].
  - now rewrite (show_flag_stays_flag e H), show_flag_idem, mark_flags_later_idem.
  - now rewrite E, (IH H).
Qed.

(** X16.  Applying the first-flag rule a second time changes nothing, on
    every card whose first flag has a class token that starts with [flag-]
    besides [flag-hidden]: the same flag stays the visible one however
    often the grid is filtered. *)
Theorem X16_first_flag_rule_idempotent (cards : list Grid.CardView) :
  Forall first_flag_named cards ->
  Grid.applyFirstFlagOnly (Grid.applyFirstFlagOnly cards)
  = Grid.applyFirstFlagOnly cards.
Proof.
  unfold Grid.applyFirstFlagOnly.
  induction 1 as [|c r Hc _ IH]; [reflexivity|].
  cbn [map]. rewrite IH. f_equal.
  unfold Grid.applyFirstFlagOnly_card. cbn [Grid.inner Grid.data_cats
    Grid.class_hidden Grid.display Grid.opacity Grid.transform Grid.pending].
  now rewrite (mark_flags_idem _ Hc).
Qed.

(** X16 on a card with two named flags. *)
Lemma X16_first_flag_rule_idempotent_witness :
  Grid.applyFirstFlagOnly
    (Grid.applyFirstFlagOnly
       [Grid.mkView None false "" "" "" []
          [Grid.mkEl (Some "flag-PS flag-hidden") None None;
           Grid.mkEl (Some "badge flag-AI") None None]])
  = Grid.applyFirstFlagOnly
      [Grid.mkView None false "" "" "" []
         [Grid.mkEl (Some "flag-PS flag-hidden") None None;
          Grid.mkEl (Some "badge flag-AI") None None]].
Proof.
  apply (X16_first_flag_rule_idempotent
           [Grid.mkView None false "" "" "" []
              [Grid.mkEl (Some "flag-PS flag-hidden") None None;
               Grid.mkEl (Some "badge flag-AI") None None]]).
  constructor; [reflexivity | constructor].
Defined.

(** ** Category chips *)

Lemma no_chip_active_after_release (chips : list Grid.Chip) :
  List.length (filter Grid.chip_active (map Grid.release chips)) = 0.
Proof. induction chips as [|c r IH]; [reflexivity | exact IH]. Qed.

Lemma one_chip_pressed (c : nat) (chips : list Grid.Chip) :
  c < List.length chips ->
  List.length
    (filter Grid.chip_active (Nav.update c Grid.press (map Grid.release chips)))
  = 1.
Proof.
  revert c. induction chips as [|x r IH]; intros c Hc; [cbn in Hc; lia|].
  destruct c as [|c]; cbn.
  - f_equal. apply no_chip_active_after_release.
  - apply IH. cbn in Hc. lia.
Qed.

(** X17.  A click on a chip leaves that chip, and no other, with the
    class [active] and [aria-pressed="true"], whatever the chips looked
    like before, and filters the grid by that chip's [data-cat]. *)
Theorem X17_chip_click_selects_one (c : nat) (chips : list Grid.Chip)
        (cards : list Grid.CardView) (chip : Grid.Chip) :
  nth_error chips c = Some chip ->
  let after := Grid.handleCategoryFilter c chips cards in
  (forall j ch, nth_error chips j = Some ch ->
     nth_error (fst after) j
     = Some (Grid.mkChip (j =? c)%nat
               (Some (if (j =? c)%nat then "true" else "false"))
               (Grid.data_cat ch)))
  /\ List.length (filter Grid.chip_active (fst after)) = 1
  /\ snd after = Grid.filterCards cards (Grid.data_cat chip).
Proof.
  intros Hc after. subst after. unfold Grid.handleCategoryFilter.
  cbn [fst snd]. rewrite Hc. split; [|split; [|reflexivity]].
  - intros j ch Hj. rewrite nth_error_update, nth_error_map, Hj.
    cbn [option_map]. now destruct (j =? c)%nat.
  - apply one_chip_pressed. apply nth_error_Some. congruence.
Qed.

(** X17 on three chips, two of them marked active in the markup. *)
Lemma X17_chip_click_selects_one_witness :
  List.length
    (filter Grid.chip_active
       (fst (Grid.handleCategoryFilter 1
               [Grid.mkChip true (Some "true") (Some "all");
                Grid.mkChip false None (Some "3d");
                Grid.mkChip true None (Some "web")] [])))
  = 1.
Proof.
  apply (X17_chip_click_selects_one 1
           [Grid.mkChip true (Some "true") (Some "all");
            Grid.mkChip false None (Some "3d");
            Grid.mkChip true None (Some "web")] [] _ eq_refl).
Defined.

(** ** Closing again and again *)

Lemma escape_when_closed (n : nat) (w : World) :
  is_open w = false -> run (repeat Escape n) w = w.
Proof.
  intros H. induction n as [|n IH]; [reflexivity|].
  cbn [repeat]. change (run (Escape :: repeat Escape n) w)
    with (run (repeat Escape n) (handle w Escape)).
  cbn [handle]. now rewrite H.
Qed.

(** X18.  The close listeners are not guarded: every run of one pushes a
    history entry, also when the overlay is already hidden, so a click
    pushes as many entries as close listeners it reaches (two for a close
    button that lies in the margin of the content) and takes as many steps
    back to undo.  The Escape listener is guarded: it does nothing while
    the overlay is hidden, and any number of presses pushes at most one
    entry. *)
Theorem X18_close_listeners_push_escape_guarded (clicks : list CloseClick)
        (n : nat) (w : World) :
  List.length (History.past (history (run (flat_map close_click clicks) w)))
  = list_sum (map listeners_reached clicks)
    + List.length (History.past (history w))
  /\ List.length (History.past (history (run (repeat Escape n) w)))
     <= 1 + List.length (History.past (history w))
  /\ (is_open w = false -> run (repeat Escape n) w = w).
Proof.
  split; [|split; [|apply escape_when_closed]].
  - revert w. induction clicks as [|c r IH]; intros w; [reflexivity|].
    cbn [flat_map map list_sum fold_right]. unfold run at 1.
    rewrite fold_left_app. fold (run (close_click c) w).
    fold (run (flat_map close_click r) (run (close_click c) w)).
    rewrite IH. unfold close_click. rewrite close_runs_past.
    unfold list_sum. lia.
  - destruct n as [|n]; [cbn; lia|].
    cbn [repeat]. change (run (Escape :: repeat Escape n) w)
      with (run (repeat Escape n) (handle w Escape)).
    cbn [handle]. destruct (is_open w) eqn:E.
    + rewrite escape_when_closed by reflexivity. cbn. lia.
    + rewrite (escape_when_closed n w E). lia.
Qed.

(** X18 on the sample page, where the overlay starts hidden. *)
Lemma X18_close_listeners_push_escape_guarded_witness :
  run (repeat Escape 3) Sample.fresh = Sample.fresh.
Proof.
  apply (proj2 (proj2 (X18_close_listeners_push_escape_guarded
                         [mkClick true false false] 3 Sample.fresh))).
  reflexivity.
Defined.

(** ** The placeholder image *)

Lemma encode_char_safe (c : ascii) :
  all_url_safe (Js.encode_char c) = true /\ Js.encode_char c <> "".
Proof.
  destruct c as [b0 b1 b2 b3 b4 b5 b6 b7].
  destruct b0, b1, b2, b3, b4, b5, b6, b7;
    (split; [vm_compute; reflexivity | discriminate]).
Qed.

Lemma all_url_safe_app (a b : string) :
  all_url_safe (a ++ b) = all_url_safe a && all_url_safe b.
Proof.
  induction a as [|c r IH]; [reflexivity|].
  cbn [append all_url_safe]. now rewrite IH, andb_assoc.
Qed.

Lemma encodeURIComponent_safe (s : string) :
  all_url_safe (Js.encodeURIComponent s) = true.
Proof.
  induction s as [|c r IH]; [reflexivity|].
  cbn [Js.encodeURIComponent]. rewrite all_url_safe_app, IH.
  now rewrite (proj1 (encode_char_safe c)).
Qed.

Lemma encodeURIComponent_nonempty (s : string) :
  s <> "" -> Js.encodeURIComponent s <> "".
Proof.
  destruct s as [|c r]; [congruence|]. intros _.
  cbn [Js.encodeURIComponent].
  destruct (encode_char_safe c) as [_ Hne].
  destruct (Js.encode_char c); [congruence | discriminate].
Qed.

(** X19.  For a card with neither a filled [data-img] nor a filled nested
    image source, the image shown is
    [https://picsum.photos/seed/<seed>/900/3000] with a non-empty seed made
    of unreserved characters and percent escapes only: no character of the
    card id can add a path segment, a query or a fragment to the URL. *)
Theorem X19_placeholder_url_shape (card : Card) :
  filled (data_img card) = None -> filled (img_src card) = None ->
  exists seed,
    displayed_image card
    = ("https://picsum.photos/seed/" ++ seed ++ "/900/3000")%string
    /\ seed <> "" /\ all_url_safe seed = true.
Proof.
  intros H1 H2.
  exists (Js.encodeURIComponent
            (if Js.truthy (card_id card) then card_id card else "long")).
  split; [|split].
  - unfold displayed_image, card_img. rewrite !or_else_filled, H1, H2.
    reflexivity.
  - apply encodeURIComponent_nonempty.
    destruct (Js.truthy (card_id card)) eqn:E;
      [now apply truthy_iff | discriminate].
  - apply encodeURIComponent_safe.
Qed.

(** X19 on a card whose id holds a slash, a question mark and a blank. *)
Lemma X19_placeholder_url_shape_witness :
  exists seed,
    displayed_image (mkCard (Some "a/b ?c") None None None None)
    = ("https://picsum.photos/seed/" ++ seed ++ "/900/3000")%string
    /\ seed <> "" /\ all_url_safe seed = true.
Proof.
  apply (X19_placeholder_url_shape (mkCard (Some "a/b ?c") None None None None));
    reflexivity.
Defined.
